(** * Employees table: sort engine, validator pipeline and inline editor

    A shallow embedding of [fieldValidator.js], [inlineEditor.js] and
    [employeesTable.js] (the [EmployeesTable] class).  JavaScript strings
    are modelled as Latin-1 strings ([list ascii]); JavaScript numbers as
    exact rationals together with NaN and the two infinities (IEEE-754
    rounding is not modelled).  The DOM is modelled as an explicit store:
    a heap of form controls, the rows of the table body as lists of cells,
    and the class lists of the header cells. *)

From Stdlib Require Import String Ascii List ZArith QArith Bool Lia Permutation.
Import ListNotations.

Local Open Scope Z_scope.

(** ** JavaScript primitives *)

Module Js.

Definition code (c : ascii) : Z := Z.of_nat (nat_of_ascii c).

Definition chr (n : nat) : ascii := ascii_of_nat n.

(** [WhiteSpace] and [LineTerminator] of ECMAScript restricted to Latin-1;
    the same set is matched by the regular-expression class [\s]. *)
Definition is_ws (c : ascii) : bool :=
  let n := code c in
  (9 <=? n) && (n <=? 13) || (n =? 32) || (n =? 160).

Definition is_digit (c : ascii) : bool :=
  let n := code c in (48 <=? n) && (n <=? 57).

Definition chars (s : string) : list ascii := list_ascii_of_string s.
Definition str (l : list ascii) : string := string_of_list_ascii l.

Fixpoint drop_ws (l : list ascii) : list ascii :=
  match l with
  | c :: r => if is_ws c then drop_ws r else l
  | [] => []
  end.

(** [String.prototype.trim] *)
Definition trim_l (l : list ascii) : list ascii := rev (drop_ws (rev (drop_ws l))).
Definition trim (s : string) : string := str (trim_l (chars s)).

(** JavaScript numbers. *)
Inductive num : Type :=
| NaN
| Inf (negative : bool)
| Fin (q : Q).

Definition is_finite (n : num) : bool :=
  match n with Fin _ => true | _ => false end.

Definition is_nan (n : num) : bool :=
  match n with NaN => true | _ => false end.

Definition neg (n : num) : num :=
  match n with
  | NaN => NaN
  | Inf b => Inf (negb b)
  | Fin q => Fin (- q)%Q
  end.

Definition add (a b : num) : num :=
  match a, b with
  | Fin x, Fin y => Fin (x + y)%Q
  | Fin _, Inf s | Inf s, Fin _ => Inf s
  | Inf s, Inf t => if Bool.eqb s t then Inf s else NaN
  | _, _ => NaN
  end.

Definition sub (a b : num) : num := add a (neg b).

Definition qsign (q : Q) : Z := Z.sgn (Qnum q).

(** Multiplication by a finite integer (the sort direction). *)
Definition mul_int (a : num) (k : Z) : num :=
  match a with
  | NaN => NaN
  | Fin x => Fin (x * inject_Z k)%Q
  | Inf s => if k =? 0 then NaN else Inf (xorb s (k <? 0))
  end.

(** [a < b] on numbers; any comparison with NaN is false. *)
Definition lt (a b : num) : bool :=
  match a, b with
  | Fin x, Fin y => negb (Qle_bool y x)
  | Inf true, Fin _ | Fin _, Inf false | Inf true, Inf false => true
  | _, _ => false
  end.

(** Sign of a comparator result as [Array.prototype.sort] reads it
    (a NaN result counts as +0). *)
Definition sign (n : num) : Z :=
  match n with
  | NaN => 0
  | Inf b => if b then -1 else 1
  | Fin q => qsign q
  end.

Fixpoint span_digits (l : list ascii) : list ascii * list ascii :=
  match l with
  | c :: r => if is_digit c then let (d, r') := span_digits r in (c :: d, r')
              else ([], l)
  | [] => ([], [])
  end.

Definition digits_value (d : list ascii) : Z :=
  fold_left (fun acc c => acc * 10 + (code c - 48)) d 0.

Definition scaled (m : Z) (e : Z) : Q :=
  if 0 <=? e then inject_Z (m * 10 ^ e) else Qmake m (Z.to_pos (10 ^ (- e))).

Definition is_char (n : nat) (c : ascii) : bool := Ascii.eqb c (chr n).

(** Optional [ExponentPart] of a [StrUnsignedDecimalLiteral]. *)
Definition parse_exponent (l : list ascii) : Z * list ascii :=
  match l with
  | e :: r =>
      if is_char 101 e || is_char 69 e then
        let '(sg, r1) :=
          match r with
          | c :: r1 => if is_char 43 c then (1, r1)
                       else if is_char 45 c then (-1, r1) else (1, r)
          | [] => (1, r)
          end in
        let (d, r2) := span_digits r1 in
        match d with
        | [] => (0, l)
        | _ => (sg * digits_value d, r2)
        end
      else (0, l)
  | [] => (0, [])
  end.

Definition infinity_chars : list ascii := chars "Infinity".

Fixpoint strip_prefix (p l : list ascii) : option (list ascii) :=
  match p, l with
  | [], _ => Some l
  | c :: p', d :: l' => if Ascii.eqb c d then strip_prefix p' l' else None
  | _ :: _, [] => None
  end.

(** Longest prefix of [l] that is a [StrUnsignedDecimalLiteral]. *)
Definition parse_unsigned (l : list ascii) : option (num * list ascii) :=
  match strip_prefix infinity_chars l with
  | Some r => Some (Inf false, r)
  | None =>
      let (d1, r1) := span_digits l in
      let '(d2, r2, dot) :=
        match r1 with
        | c :: r => if is_char 46 c then let (d2, r2) := span_digits r in (d2, r2, true)
                    else ([], r1, false)
        | [] => ([], r1, false)
        end in
      match d1, d2 with
      | [], [] => None
      | _, _ =>
          let (e, r3) := parse_exponent r2 in
          Some (Fin (scaled (digits_value (d1 ++ d2)) (e - Z.of_nat (length d2))), r3)
      end
  end.

(** Longest prefix of [l] that is a [StrDecimalLiteral]. *)
Definition parse_decimal (l : list ascii) : option (num * list ascii) :=
  match l with
  | c :: r =>
      if is_char 45 c then
        match parse_unsigned r with Some (n, r') => Some (neg n, r') | None => None end
      else if is_char 43 c then parse_unsigned r
      else parse_unsigned l
  | [] => None
  end.

(** [parseFloat] *)
Definition parseFloat (s : string) : num :=
  match parse_decimal (drop_ws (chars s)) with
  | Some (n, _) => n
  | None => NaN
  end.

Definition hex_value (c : ascii) : option Z :=
  let n := code c in
  if (48 <=? n) && (n <=? 57) then Some (n - 48)
  else if (97 <=? n) && (n <=? 102) then Some (n - 87)
  else if (65 <=? n) && (n <=? 70) then Some (n - 55)
  else None.

Fixpoint radix_value (base : Z) (acc : Z) (l : list ascii) : option Z :=
  match l with
  | [] => Some acc
  | c :: r =>
      match hex_value c with
      | Some d => if d <? base then radix_value base (acc * base + d) r else None
      | None => None
      end
  end.

(** [NonDecimalIntegerLiteral]: [0x], [0o] and [0b] with at least one digit. *)
Definition parse_non_decimal (l : list ascii) : option Z :=
  match l with
  | z :: x :: (_ :: _) as r =>
      if is_char 48 z then
        if is_char 120 x || is_char 88 x then radix_value 16 0 r
        else if is_char 111 x || is_char 79 x then radix_value 8 0 r
        else if is_char 98 x || is_char 66 x then radix_value 2 0 r
        else None
      else None
  | _ => None
  end.

(** [Number(value)] on a string ([StringToNumber]). *)
Definition Number (s : string) : num :=
  let l := trim_l (chars s) in
  match l with
  | [] => Fin 0%Q
  | _ =>
      match parse_non_decimal l with
      | Some z => Fin (inject_Z z)
      | None =>
          match parse_decimal l with
          | Some (n, []) => n
          | _ => NaN
          end
      end
  end.

(** [String.prototype.replace] with [/\s|,/g] and [""]. *)
Definition strip_ws_commas (s : string) : string :=
  str (filter (fun c => negb (is_ws c || is_char 44 c)) (chars s)).

(** [String.prototype.replace] with [/[^0-9.,]/g] and [""]. *)
Definition keep_digits_dots_commas (s : string) : string :=
  str (filter (fun c => is_digit c || is_char 46 c || is_char 44 c) (chars s)).

(** Does the whole string match [/^-?\d+([.,]\d+)?$/]? *)
Definition match_signed_decimal (s : string) : bool :=
  let l := chars s in
  let l' := match l with c :: r => if is_char 45 c then r else l | [] => [] end in
  let (d1, r1) := span_digits l' in
  match d1 with
  | [] => false
  | _ =>
      match r1 with
      | [] => true
      | c :: r => (is_char 46 c || is_char 44 c) &&
                  (let (d2, r2) := span_digits r in
                   match d2, r2 with _ :: _, [] => true | _, _ => false end)
      end
  end.

(** [localeCompare] with [sensitivity: 'base'], modelled on ASCII as a
    case-insensitive comparison of character codes (digits before letters,
    upper and lower case letters equal). *)
Definition fold_case (c : ascii) : Z :=
  let n := code c in if (65 <=? n) && (n <=? 90) then n + 32 else n.

Fixpoint compare_folded (a b : list ascii) : Z :=
  match a, b with
  | [], [] => 0
  | [], _ => -1
  | _, [] => 1
  | x :: a', y :: b' =>
      match Z.compare (fold_case x) (fold_case y) with
      | Eq => compare_folded a' b'
      | Lt => -1
      | Gt => 1
      end
  end.

Definition localeCompare (a b : string) : Z := compare_folded (chars a) (chars b).

(** [Array.prototype.join] of an array whose elements may be [undefined]
    (rendered as the empty string). *)
Fixpoint join (sep : string) (l : list (option string)) : string :=
  match l with
  | [] => ""
  | [x] => match x with Some s => s | None => "" end
  | x :: r => ((match x with Some s => s | None => "" end) ++ sep ++ join sep r)%string
  end.

End Js.

Import Js.

Local Open Scope string_scope.
Local Open Scope list_scope.
Local Open Scope Z_scope.

(** Decimal rendering of an integer, as in a template literal [`${n}`]. *)
Fixpoint digits_of_pos (fuel : nat) (n : Z) (acc : string) : string :=
  match fuel with
  | O => acc
  | S f =>
      let d := String (chr (Z.to_nat (48 + n mod 10))) acc in
      if n <? 10 then d else digits_of_pos f (n / 10) d
  end.

Definition Z_to_js (n : Z) : string :=
  if n <? 0 then String (chr 45) (digits_of_pos 64 (- n) "")
  else digits_of_pos 64 n "".

(** ** Sort engine: [EmployeesTable._defaultComparator] *)

Definition _defaultComparator (a b : string) (sortType : Z) : num :=
  let normA := trim a in
  let normB := trim b in
  if String.eqb normA "" && String.eqb normB "" then Fin 0%Q
  else if String.eqb normA "" then Fin (inject_Z (- sortType))
  else if String.eqb normB "" then Fin (inject_Z sortType)
  else
    let numA := parseFloat (strip_ws_commas normA) in
    let numB := parseFloat (strip_ws_commas normB) in
    let bothNumeric :=
      is_finite numA && is_finite numB &&
      match_signed_decimal normA && match_signed_decimal normB in
    if bothNumeric then mul_int (sub numA numB) sortType
    else Fin (inject_Z (localeCompare normA normB * sortType)).

(** The comparator as the specification words it: the decimal pattern is
    tested on the whitespace- and comma-stripped strings. *)
Definition spec_defaultComparator (a b : string) (sortType : Z) : num :=
  let normA := trim a in
  let normB := trim b in
  if String.eqb normA "" && String.eqb normB "" then Fin 0%Q
  else if String.eqb normA "" then Fin (inject_Z (- sortType))
  else if String.eqb normB "" then Fin (inject_Z sortType)
  else
    let sA := strip_ws_commas normA in
    let sB := strip_ws_commas normB in
    if match_signed_decimal sA && match_signed_decimal sB
    then mul_int (sub (parseFloat sA) (parseFloat sB)) sortType
    else Fin (inject_Z (localeCompare normA normB * sortType)).

(** ** Validator pipeline: [fieldValidator.js] *)

(** What a rule function returns: an object [{success, message?}]. *)
Record RuleResult := { r_success : bool; r_message : option string }.

(** A call of a rule function either returns or throws an error. *)
Inductive RuleOutcome :=
| Returned (r : RuleResult)
| Threw (error_message : string).

(** [rule.func] is [None] when it is not a function. *)
Record Rule := { rule_name : string; rule_func : option (string -> RuleOutcome) }.

(** [BaseValidationResult] *)
Record BaseValidationResult := { success : bool; message : string }.

(** One iteration of [this._rules.forEach] in [BaseValidator.validate],
    threading the mutable [success] flag and [messages] array. *)
Definition validate_step (value : string) (st : bool * list (option string)) (rule : Rule)
  : bool * list (option string) :=
  let (ok, messages) := st in
  match rule_func rule with
  | None => (false, messages ++ [Some ("Validation " ++ rule_name rule ++ " is not defined")%string])
  | Some f =>
      match f value with
      | Returned result =>
          if r_success result then (ok, messages)
          else (false, messages ++ [r_message result])
      | Threw e =>
          (false, messages ++ [Some ("Validation " ++ rule_name rule ++ " failed: " ++ e)%string])
      end
  end.

(** [BaseValidator.validate]; [field] is [None] when no field is bound and
    [Some v] when the bound field's [value] is [v] ([None] for null). *)
Definition validate (field : option (option string)) (rules : list Rule) : BaseValidationResult :=
  match field with
  | None => {| success := false; message := "Field not bound" |}
  | Some v =>
      let value := trim (match v with Some s => s | None => "" end) in
      let (ok, messages) := fold_left (validate_step value) rules (true, []) in
      {| success := ok; message := join "; " messages |}
  end.

Definition pass : RuleOutcome := Returned {| r_success := true; r_message := None |}.
Definition fail (m : string) : RuleOutcome := Returned {| r_success := false; r_message := Some m |}.

(** [MinStrLenValidator] *)
Definition MinStrLenValidator (fieldName : string) (minLenValue : Z) : list Rule :=
  [ {| rule_name := "minLen";
       rule_func := Some (fun value =>
         if String.eqb value "" || (Z.of_nat (String.length value) <? minLenValue)
         then fail ("Minimum " ++ fieldName ++ " length is " ++ Z_to_js minLenValue)
         else pass) |} ].

(** [NumScopeValidator] *)
Definition NumScopeValidator (fieldName : string) (minValue maxValue : Z) : list Rule :=
  [ {| rule_name := "min";
       rule_func := Some (fun value =>
         let n := Number value in
         if is_nan n then fail (fieldName ++ " must be a number")
         else if lt n (Fin (inject_Z minValue))
         then fail ("Minimum " ++ fieldName ++ " is " ++ Z_to_js minValue)
         else pass) |};
    {| rule_name := "max";
       rule_func := Some (fun value =>
         let n := Number value in
         if is_nan n then fail (fieldName ++ " must be a number")
         else if lt (Fin (inject_Z maxValue)) n
         then fail ("Maximum " ++ fieldName ++ " is " ++ Z_to_js maxValue)
         else pass) |} ].

(** [NotEmptyValidator]; [validate] always passes a string, so the rule
    takes its [typeof value === 'string'] branch. *)
Definition NotEmptyValidator (fieldName : string) : list Rule :=
  [ {| rule_name := "notEmpty";
       rule_func := Some (fun value =>
         if negb (String.eqb (trim value) "") then
           Returned {| r_success := true; r_message := None |}
         else
           Returned {| r_success := false;
                       r_message := Some ("Field ' " ++ fieldName ++ " should not be empty")%string |})
    |} ].

(** ** The DOM store of the employees table *)

Inductive NotificationType := NOTIFICATION_TYPE_SUCCESS | NOTIFICATION_TYPE_ERROR.

(** A notification pushed by [CustomNotificationManager.pushNotification]. *)
Record Notification := { n_title : string; n_description : string; n_type : NotificationType }.

(** An [InlineEditor] object.  Its fields are only assigned in the
    constructor; the editor built for a cell without a schema entry leaves
    all of them undefined. *)
Record InlineEditor := {
  originElement : option nat;            (* id of the origin td *)
  targetElement : option (nat * nat);    (* id of the container td, id of its control *)
  editor_validator : option nat;         (* id of the shared validator object *)
  onComplete : bool }.

Definition hollow_editor : InlineEditor :=
  {| originElement := None; targetElement := None; editor_validator := None; onComplete := false |}.

Inductive ControlKind :=
| InputControl (type : string)
| SelectControl (options : list string).

(** An input or select element.  [ctl_validator] is the expando property
    [validator]; [ctl_focusout] tells whether the editor's focusout
    listener is still attached; [ctl_owner] is the editor whose
    [complete] its listeners call. *)
Record Control := {
  ctl_kind : ControlKind;
  ctl_name : string;
  ctl_value : string;
  ctl_validator : option nat;
  ctl_focusout : bool;
  ctl_owner : option InlineEditor }.

Inductive TdContent := Text (s : string) | Holds (ctl : nat).

(** A td element of the table body; [td_hidden] is the [hidden] class. *)
Record Td := { td_id : nat; td_content : TdContent; td_hidden : bool }.

(** A validator object: its rules and the bound field [_field]. *)
Record ValidatorObj := { v_rules : list Rule; _field : option nat }.

Definition Comparator := string -> string -> Z -> num.

Record Grid := {
  heap : list (nat * Control);
  validators : list (nat * ValidatorObj);
  rows : list (list Td);
  headers : list (list string);
  COLUMN_INDEX : Z;
  SORT : Z;
  _activeEditor : option InlineEditor;
  _customComparators : list (Z * Comparator);
  notifications : list Notification;
  focused : option nat;
  form_fields : list nat;
  next_id : nat }.

Definition with_heap (g : Grid) h := {| heap := h; validators := validators g; rows := rows g; headers := headers g; COLUMN_INDEX := COLUMN_INDEX g; SORT := SORT g; _activeEditor := _activeEditor g; _customComparators := _customComparators g; notifications := notifications g; focused := focused g; form_fields := form_fields g; next_id := next_id g |}.
Definition with_validators (g : Grid) v := {| heap := heap g; validators := v; rows := rows g; headers := headers g; COLUMN_INDEX := COLUMN_INDEX g; SORT := SORT g; _activeEditor := _activeEditor g; _customComparators := _customComparators g; notifications := notifications g; focused := focused g; form_fields := form_fields g; next_id := next_id g |}.
Definition with_rows (g : Grid) r := {| heap := heap g; validators := validators g; rows := r; headers := headers g; COLUMN_INDEX := COLUMN_INDEX g; SORT := SORT g; _activeEditor := _activeEditor g; _customComparators := _customComparators g; notifications := notifications g; focused := focused g; form_fields := form_fields g; next_id := next_id g |}.
Definition with_headers (g : Grid) h := {| heap := heap g; validators := validators g; rows := rows g; headers := h; COLUMN_INDEX := COLUMN_INDEX g; SORT := SORT g; _activeEditor := _activeEditor g; _customComparators := _customComparators g; notifications := notifications g; focused := focused g; form_fields := form_fields g; next_id := next_id g |}.
Definition with_sorter (g : Grid) c s := {| heap := heap g; validators := validators g; rows := rows g; headers := headers g; COLUMN_INDEX := c; SORT := s; _activeEditor := _activeEditor g; _customComparators := _customComparators g; notifications := notifications g; focused := focused g; form_fields := form_fields g; next_id := next_id g |}.
Definition with_activeEditor (g : Grid) e := {| heap := heap g; validators := validators g; rows := rows g; headers := headers g; COLUMN_INDEX := COLUMN_INDEX g; SORT := SORT g; _activeEditor := e; _customComparators := _customComparators g; notifications := notifications g; focused := focused g; form_fields := form_fields g; next_id := next_id g |}.
Definition with_notifications (g : Grid) n := {| heap := heap g; validators := validators g; rows := rows g; headers := headers g; COLUMN_INDEX := COLUMN_INDEX g; SORT := SORT g; _activeEditor := _activeEditor g; _customComparators := _customComparators g; notifications := n; focused := focused g; form_fields := form_fields g; next_id := next_id g |}.
Definition with_focused (g : Grid) f := {| heap := heap g; validators := validators g; rows := rows g; headers := headers g; COLUMN_INDEX := COLUMN_INDEX g; SORT := SORT g; _activeEditor := _activeEditor g; _customComparators := _customComparators g; notifications := notifications g; focused := f; form_fields := form_fields g; next_id := next_id g |}.
Definition with_next_id (g : Grid) n := {| heap := heap g; validators := validators g; rows := rows g; headers := headers g; COLUMN_INDEX := COLUMN_INDEX g; SORT := SORT g; _activeEditor := _activeEditor g; _customComparators := _customComparators g; notifications := notifications g; focused := focused g; form_fields := form_fields g; next_id := n |}.

Fixpoint assoc {A} (k : nat) (l : list (nat * A)) : option A :=
  match l with
  | [] => None
  | (k', v) :: r => if Nat.eqb k k' then Some v else assoc k r
  end.

Fixpoint assoc_set {A} (k : nat) (v : A) (l : list (nat * A)) : list (nat * A) :=
  match l with
  | [] => [(k, v)]
  | (k', v') :: r => if Nat.eqb k k' then (k, v) :: r else (k', v') :: assoc_set k v r
  end.

Definition ctl_get (g : Grid) (id : nat) : option Control := assoc id (heap g).
Definition ctl_put (g : Grid) (id : nat) (c : Control) : Grid := with_heap g (assoc_set id c (heap g)).

Definition ctl_update (g : Grid) (id : nat) (f : Control -> Control) : Grid :=
  match ctl_get g id with Some c => ctl_put g id (f c) | None => g end.

Definition set_ctl_value (c : Control) (v : string) : Control :=
  {| ctl_kind := ctl_kind c; ctl_name := ctl_name c; ctl_value := v; ctl_validator := ctl_validator c;
     ctl_focusout := ctl_focusout c; ctl_owner := ctl_owner c |}.
Definition set_ctl_validator (c : Control) (v : option nat) : Control :=
  {| ctl_kind := ctl_kind c; ctl_name := ctl_name c; ctl_value := ctl_value c; ctl_validator := v;
     ctl_focusout := ctl_focusout c; ctl_owner := ctl_owner c |}.
Definition drop_focusout (c : Control) : Control :=
  {| ctl_kind := ctl_kind c; ctl_name := ctl_name c; ctl_value := ctl_value c; ctl_validator := ctl_validator c;
     ctl_focusout := false; ctl_owner := ctl_owner c |}.

(** textContent of a control: empty for an input, the option texts for a select. *)
Definition ctl_text (c : Control) : string :=
  match ctl_kind c with
  | InputControl _ => ""
  | SelectControl opts => String.concat "" opts
  end.

(** The value setter: a select keeps only one of its options (else no
    option is selected), a text input drops line breaks, a number input
    keeps only a valid floating-point number. *)
Definition valid_float (s : string) : bool :=
  match chars s with
  | c :: _ => negb (is_char 43 c) && negb (is_char 73 c) &&
              match parse_decimal (chars s) with Some (Fin _, []) => true | _ => false end
  | [] => false
  end.

Definition sanitize (k : ControlKind) (v : string) : string :=
  match k with
  | SelectControl opts => if existsb (String.eqb v) opts then v else ""
  | InputControl t =>
      if String.eqb t "number" then (if valid_float v then v else "")
      else str (filter (fun c => negb (is_char 10 c || is_char 13 c)) (chars v))
  end.

Definition val_get (g : Grid) (id : nat) : option ValidatorObj := assoc id (validators g).

(** [validator.bindField(field)] *)
Definition bindField (g : Grid) (vid field : nat) : Grid :=
  match val_get g vid with
  | Some v => with_validators g (assoc_set vid {| v_rules := v_rules v; _field := Some field |} (validators g))
  | None => g
  end.

(** [validator.validate()] on the shared validator object [vid]. *)
Definition run_validator (g : Grid) (vid : nat) : BaseValidationResult :=
  match val_get g vid with
  | Some v =>
      validate (match _field v with
                | Some id => Some (option_map ctl_value (ctl_get g id))
                | None => None
                end) (v_rules v)
  | None => validate None []
  end.

Definition pushNotification (g : Grid) (title description : string) (t : NotificationType) : Grid :=
  with_notifications g (notifications g ++ [{| n_title := title; n_description := description; n_type := t |}]).

(** textContent of a td. *)
Definition td_text (g : Grid) (td : Td) : string :=
  match td_content td with
  | Text s => s
  | Holds c => match ctl_get g c with Some ctl => ctl_text ctl | None => "" end
  end.

(** Position (row, cellIndex) and current state of the td [id] in the body. *)
Fixpoint find_in_row (id : nat) (pos : nat) (row : list Td) : option (nat * Td) :=
  match row with
  | [] => None
  | td :: r => if Nat.eqb (td_id td) id then Some (pos, td) else find_in_row id (S pos) r
  end.

Fixpoint find_td_from (id : nat) (ri : nat) (rs : list (list Td)) : option (nat * nat * Td) :=
  match rs with
  | [] => None
  | row :: rs' =>
      match find_in_row id 0 row with
      | Some (pos, td) => Some (ri, pos, td)
      | None => find_td_from id (S ri) rs'
      end
  end.

Definition find_td (g : Grid) (id : nat) : option (nat * nat * Td) := find_td_from id 0 (rows g).

(** Rewrites every td of the body with [f] (a td may become several or none). *)
Definition map_tds (f : Td -> list Td) (g : Grid) : Grid :=
  with_rows g (map (flat_map f) (rows g)).

Definition on_td (id : nat) (f : Td -> list Td) : Td -> list Td :=
  fun td => if Nat.eqb (td_id td) id then f td else [td].

Definition set_td_text (id : nat) (s : string) (g : Grid) : Grid :=
  map_tds (on_td id (fun td => [{| td_id := td_id td; td_content := Text s; td_hidden := td_hidden td |}])) g.
Definition set_td_hidden (id : nat) (h : bool) (g : Grid) : Grid :=
  map_tds (on_td id (fun td => [{| td_id := td_id td; td_content := td_content td; td_hidden := h |}])) g.
Definition insert_after (id : nat) (box : Td) (g : Grid) : Grid :=
  map_tds (on_td id (fun td => [td; box])) g.
Definition remove_td (id : nat) (g : Grid) : Grid :=
  map_tds (on_td id (fun _ => [])) g.

(** Number of editor controls present in the document. *)
Definition editor_controls (g : Grid) : nat :=
  length (filter (fun td => match td_content td with Holds _ => true | Text _ => false end)
                 (concat (rows g))).

(** ** Sort engine *)

Definition STATE_ASC : Z := 1.
Definition STATE_DESC : Z := -1.
Definition STATE_NONE : Z := 0.

(** [EmployeesTable.STATE_CLASS[sort]] as a class name ([undefined] is
    added as the string "undefined"). *)
Definition STATE_CLASS (s : Z) : string :=
  if s =? STATE_ASC then "sorted-asc"
  else if s =? STATE_DESC then "sorted-desc"
  else if s =? STATE_NONE then "sorted-none"
  else "undefined".

(** [Object.values(EmployeesTable.STATE_CLASS)] (integer keys in ascending order). *)
Definition STATE_CLASS_values : list string := ["sorted-none"%string; "sorted-asc"%string; "sorted-desc"%string].

Definition classList_add (c : string) (l : list string) : list string :=
  if existsb (String.eqb c) l then l else l ++ [c].
Definition classList_remove (c : string) (l : list string) : list string :=
  filter (fun x => negb (String.eqb x c)) l.

Definition prepare_header (col sort : Z) (i : nat) (th : list string) : list string :=
  let th' := fold_left (fun l c => classList_remove c l) STATE_CLASS_values th in
  if Z.of_nat i =? col then classList_add (STATE_CLASS sort) th' else th'.

Fixpoint mapi_from {A B} (f : nat -> A -> B) (i : nat) (l : list A) : list B :=
  match l with
  | [] => []
  | x :: r => f i x :: mapi_from f (S i) r
  end.

(** [EmployeesTable._extractCellValue] *)
Definition _extractCellValue (g : Grid) (row : list Td) (colIndex : Z) : string :=
  if colIndex <? 0 then ""
  else match nth_error row (Z.to_nat colIndex) with
       | Some td => trim (td_text g td)
       | None => ""
       end.

(** [this._customComparators[colIndex]]: the last comparator registered for that index. *)
Definition comparator_at (cs : list (Z * Comparator)) (colIndex : Z) : option Comparator :=
  fold_left (fun acc '(i, f) => if i =? colIndex then Some f else acc) cs None.

(** [Array.prototype.sort] is modelled by a stable insertion sort; it
    agrees with any stable sort when the comparator is a total preorder. *)
Fixpoint insert_by {A} (cmp : A -> A -> Z) (x : A) (l : list A) : list A :=
  match l with
  | [] => [x]
  | y :: r => if cmp x y <? 0 then x :: l else y :: insert_by cmp x r
  end.

Definition sort_by {A} (cmp : A -> A -> Z) (l : list A) : list A :=
  fold_left (fun acc x => insert_by cmp x acc) l [].

(** [EmployeesTable._sortByColumn]; [None] is a call without argument. *)
Definition _sortByColumn (columnIndex : option Z) (g : Grid) : Grid :=
  let colIndex := match columnIndex with Some c => c | None => 0 end in
  let g1 := with_headers g (mapi_from (prepare_header (COLUMN_INDEX g) (SORT g)) 0 (headers g)) in
  let compareFunc := match comparator_at (_customComparators g1) colIndex with
                     | Some f => f
                     | None => _defaultComparator
                     end in
  with_rows g1 (sort_by (fun rowA rowB =>
                  sign (compareFunc (_extractCellValue g1 rowA colIndex)
                                    (_extractCellValue g1 rowB colIndex) (SORT g1)))
                (rows g1)).

(** [EmployeesTable._sortByColumnHandler] *)
Definition _sortByColumnHandler (colIndex : nat) (g : Grid) : Grid :=
  let g1 := if COLUMN_INDEX g =? Z.of_nat colIndex
            then with_sorter g (COLUMN_INDEX g) (SORT g * -1)
            else with_sorter g (Z.of_nat colIndex) STATE_ASC in
  _sortByColumn (Some (Z.of_nat colIndex)) g1.

(** ** Field schema registry: [EmployeesTable.FIELDS] *)

Inductive Generator := InputFieldGenerator | SelectFieldGenerator.
Inductive JsArg := AStr (s : string) | AArr (l : list string).

Record FieldConf := {
  GeneratorClass : Generator;
  args : list JsArg;
  required : bool;
  type : string;
  validator : option nat;                 (* id of the validator object *)
  formatter : option (string -> string) }.

(** [Intl.NumberFormat('en-US', {style:'currency', currency:'USD',
    maximumFractionDigits:0})] on an exact number. *)
Definition round_half_expand (q : Q) : Z :=
  let n := Qnum q in
  let d := Zpos (Qden q) in
  if 0 <=? n then (2 * n + d) / (2 * d) else - ((2 * (- n) + d) / (2 * d)).

Definition pad3 (m : Z) : string :=
  if m <? 10 then "00" ++ Z_to_js m else if m <? 100 then "0" ++ Z_to_js m else Z_to_js m.

Fixpoint group3 (fuel : nat) (n : Z) : string :=
  match fuel with
  | O => Z_to_js n
  | S f => if n <? 1000 then Z_to_js n else group3 f (n / 1000) ++ "," ++ pad3 (n mod 1000)
  end.

Definition intl_usd (z : Z) : string :=
  if z <? 0 then "-$" ++ group3 64 (- z) else "$" ++ group3 64 z.

(** [MoneyAmountFormatter.format] on a string value. *)
Definition MoneyAmountFormatter_format (value : string) : string :=
  if String.eqb value "" then ""
  else
    let cleaned := str (filter (fun c => is_digit c || is_char 44 c || is_char 46 c || is_char 45 c)
                               (chars value)) in
    match Number cleaned with
    | Fin q => intl_usd (round_half_expand q)
    | _ => value
    end.

Definition OFFICES : list string :=
  ["Tokyo"; "Singapore"; "London"; "New York"; "Edinburgh"; "San Francisco"]%string.

(** Validator objects created once in [FIELDS] (ids 0 to 3). *)
Definition name_validator : nat := 0.
Definition position_validator : nat := 1.
Definition age_validator : nat := 2.
Definition salary_validator : nat := 3.

Definition FIELDS : list FieldConf :=
  [ {| GeneratorClass := InputFieldGenerator; args := [AStr "name"]; required := true;
       type := "text"; validator := Some name_validator; formatter := None |};
    {| GeneratorClass := InputFieldGenerator; args := [AStr "position"]; required := true;
       type := "text"; validator := Some position_validator; formatter := None |};
    {| GeneratorClass := SelectFieldGenerator; args := [AStr "office"; AArr OFFICES]; required := true;
       type := "select"; validator := None; formatter := None |};
    {| GeneratorClass := InputFieldGenerator; args := [AStr "age"]; required := true;
       type := "number"; validator := Some age_validator; formatter := None |};
    {| GeneratorClass := InputFieldGenerator; args := [AStr "salary"]; required := true;
       type := "number"; validator := Some salary_validator; formatter := Some MoneyAmountFormatter_format |} ].

Definition FIELD_VALIDATORS : list (nat * ValidatorObj) :=
  [ (name_validator, {| v_rules := MinStrLenValidator "name" 4; _field := None |});
    (position_validator, {| v_rules := NotEmptyValidator "position"; _field := None |});
    (age_validator, {| v_rules := NumScopeValidator "age" 18 90; _field := None |});
    (salary_validator, {| v_rules := NotEmptyValidator "salary"; _field := None |}) ].

(** ** Inline edit lifecycle: [InlineEditor] *)

Definition ERROR := NOTIFICATION_TYPE_ERROR.
Definition SUCCESS := NOTIFICATION_TYPE_SUCCESS.

Definition TYPE_ERROR_FIRSTCHILD : string := "Cannot read properties of undefined (reading 'firstChild')".
Definition TYPE_ERROR_VALIDATOR : string := "Cannot read properties of null (reading 'validator')".

(** [this.targetElement.firstChild]: the control, a text node (after the
    container's textContent was overwritten) or null.  A container that
    left the document still holds its control. *)
Inductive FirstChild := FCControl (id : nat) | FCText | FCNull.

Definition first_child (g : Grid) (box cid : nat) : FirstChild :=
  match find_td g box with
  | Some (_, _, td) =>
      match td_content td with
      | Holds c => FCControl c
      | Text s => if String.eqb s "" then FCNull else FCText
      end
  | None => FCControl cid
  end.

(** The part of [InlineEditor.complete] after a successful validation. *)
Definition complete_commit (ed : InlineEditor) (box cid : nat) (g : Grid) : Grid :=
  let g1 := pushNotification g "Success" "New row was successfully added." SUCCESS in
  let value := match first_child g1 box cid with
               | FCControl c => match ctl_get g1 c with Some ctl => ctl_value ctl | None => "" end
               | _ => ""  (* textContent = undefined *)
               end in
  let g2 := match originElement ed with Some o => set_td_text o value g1 | None => g1 end in
  let g3 := match find_td g2 box with
            | Some _ =>
                let g' := remove_td box g2 in
                match focused g' with
                | Some f => if Nat.eqb f cid then with_focused g' None else g'
                | None => g'
                end
            | None => g2
            end in
  let g4 := match originElement ed with Some o => set_td_hidden o false g3 | None => g3 end in
  if onComplete ed then
    (* the callback given by the dblclick handler *)
    let g5 := with_activeEditor g4 None in
    if 0 <=? COLUMN_INDEX g5 then _sortByColumn (Some (COLUMN_INDEX g5)) g5 else g5
  else g4.

(** [InlineEditor.complete] *)
Definition complete (ed : InlineEditor) (g : Grid) : Grid :=
  match targetElement ed with
  | None => pushNotification g "Error" TYPE_ERROR_FIRSTCHILD ERROR
  | Some (box, cid) =>
      match first_child g box cid with
      | FCNull => pushNotification g "Error" TYPE_ERROR_VALIDATOR ERROR
      | FCText => complete_commit ed box cid g
      | FCControl c =>
          match option_map ctl_validator (ctl_get g c) with
          | Some (Some vid) =>
              let r := run_validator g vid in
              if success r then complete_commit ed box cid g
              else pushNotification g "Validation failed" (message r) ERROR
          | _ => complete_commit ed box cid g
          end
      end
  end.

(** Focus handling: moving the focus away from a control fires its
    focusout listener, if still attached. *)
Definition fire_focusout (c : nat) (g : Grid) : Grid :=
  match ctl_get g c with
  | Some ctl =>
      if ctl_focusout ctl then
        match ctl_owner ctl with Some ed => complete ed g | None => g end
      else g
  | None => g
  end.

Definition blur (c : nat) (g : Grid) : Grid :=
  match focused g with
  | Some f => if Nat.eqb f c then fire_focusout c (with_focused g None) else g
  | None => g
  end.

Definition blur_any (g : Grid) : Grid :=
  match focused g with Some f => blur f g | None => g end.

Definition focus (c : nat) (g : Grid) : Grid :=
  match focused g with
  | Some f => if Nat.eqb f c then g else with_focused (blur f g) (Some c)
  | None => with_focused g (Some c)
  end.

(** The element double-clicked: a td of the body or a control. *)
Inductive Target := TTd (id : nat) | TCtl (ctl : nat).

(** [originElement.cellIndex]; undefined for a control. *)
Definition cellIndex (g : Grid) (t : Target) : option nat :=
  match t with
  | TTd id => match find_td g id with Some (_, pos, _) => Some pos | None => None end
  | TCtl _ => None
  end.

Definition arg_text (a : option JsArg) (default : string) : string :=
  match a with
  | None => default
  | Some (AStr s) => s
  | Some (AArr l) => String.concat "," l
  end.

(** [generateElement(false, ...fieldConfiguration.args)] in
    [buildTargetElement]: the arguments are shifted by one position, so an
    input gets [type] from [args[1]] and [name] from [args[2]], and a select
    reads its options from [args[3]] ([None]: a TypeError is thrown). *)
Definition generated_control (conf : FieldConf) : option (ControlKind * string) :=
  let name := arg_text (nth_error (args conf) 2) "undefined" in
  match GeneratorClass conf with
  | InputFieldGenerator => Some (InputControl (arg_text (nth_error (args conf) 1) "text"), name)
  | SelectFieldGenerator =>
      match nth_error (args conf) 3 with
      | Some (AArr opts) => Some (SelectControl opts, name)
      | _ => None
      end
  end.

(** [new InlineEditor(originElement, fields, onComplete)]: [inl] with the
    new object, or [inr] with the state at which a TypeError is thrown. *)
Definition new_InlineEditor (target : Target) (fields : list FieldConf) (cb : bool) (g : Grid)
  : (Grid * InlineEditor) + Grid :=
  match cellIndex g target, target with
  | Some i, TTd o =>
      match nth_error fields i with
      | None => inl (g, hollow_editor)   (* misconfiguration: return *)
      | Some conf =>
          match generated_control conf with
          | None => inr g
          | Some (kind, name) =>
              let box := next_id g in
              let cid := S box in
              let origin_text := match find_td g o with Some (_, _, td) => td_text g td | None => "" end in
              let ed := {| originElement := Some o; targetElement := Some (box, cid);
                           editor_validator := validator conf; onComplete := cb |} in
              let ctl := {| ctl_kind := kind; ctl_name := name; ctl_value := sanitize kind origin_text;
                            ctl_validator := None; ctl_focusout := true; ctl_owner := Some ed |} in
              let g1 := with_next_id (ctl_put g cid ctl) (S cid) in
              let g2 := insert_after o {| td_id := box; td_content := Holds cid; td_hidden := false |}
                                     (set_td_hidden o true g1) in
              let g3 := focus cid g2 in
              let g4 := match validator conf with
                        | Some vid => ctl_update (bindField g3 vid cid) cid (fun c => set_ctl_validator c (Some vid))
                        | None => g3
                        end in
              inl (g4, ed)
          end
      end
  | _, _ => inl (g, hollow_editor)        (* fields[undefined] is undefined *)
  end.

(** The dblclick listener of the table body. *)
Definition on_dblclick (t : Target) (g : Grid) : Grid :=
  let g1 := match _activeEditor g with Some ed => complete ed g | None => g end in
  match new_InlineEditor t FIELDS true g1 with
  | inl (g2, ed) => with_activeEditor g2 (Some ed)
  | inr g2 => g2    (* the TypeError leaves the listener *)
  end.

(** ** Creation form: [_saveEmployee], [validateEmployee], [_buildEmployeeRow] *)

(** One iteration of [employeeFields.forEach] in [validateEmployee]. *)
Definition validate_field (st : bool * Grid) (id : nat) : bool * Grid :=
  let (ok, g) := st in
  match option_map ctl_validator (ctl_get g id) with
  | Some (Some vid) =>
      let r := run_validator g vid in
      let ok' := ok && success r in
      if success r then (ok', g)
      else (ok', pushNotification g "Validation failed" (message r) ERROR)
  | _ => (ok, g)
  end.

(** [EmployeesTable.validateEmployee] *)
Definition validateEmployee (employeeFields : list nat) (g : Grid) : bool * Grid :=
  let (ok, g1) := fold_left validate_field employeeFields (true, g) in
  if ok then (true, pushNotification g1 "Success" "New row was successfully added." SUCCESS)
  else (false, g1).

(** [EmployeesTable.applyFormatter] ([MoneyAmountFormatter.format] never throws). *)
Definition applyFormatter (def : FieldConf) (value : string) : string :=
  match formatter def with Some f => f value | None => value end.

(** [employeeFieldsByName.get(name)]: the last field with that (non-empty) name. *)
Definition field_by_name (g : Grid) (employeeFields : list nat) (name : string) : option Control :=
  fold_left (fun acc id =>
               match ctl_get g id with
               | Some c => if negb (String.eqb (ctl_name c) "") && String.eqb (ctl_name c) name
                           then Some c else acc
               | None => acc
               end) employeeFields None.

(** [EmployeesTable._buildEmployeeRow]: new tds get fresh ids. *)
Definition _buildEmployeeRow (employeeFields : list nat) (g : Grid) : list Td * Grid :=
  let cell i field :=
    let fieldElementName := match args field with AStr s :: _ => s | _ => "" end in
    let fieldElementVal :=
      if String.eqb fieldElementName "" then ""
      else match field_by_name g employeeFields fieldElementName with
           | Some c => ctl_value c
           | None => ""
           end in
    {| td_id := next_id g + i; td_content := Text (applyFormatter field fieldElementVal); td_hidden := false |} in
  (mapi_from cell 0 FIELDS, with_next_id g (next_id g + length FIELDS)).

Definition reset_value (k : ControlKind) : string :=
  match k with SelectControl (o :: _) => o | _ => "" end.

(** [this._employeeForm.reset()] *)
Definition form_reset (g : Grid) : Grid :=
  fold_left (fun g id => ctl_update g id (fun c => set_ctl_value c (reset_value (ctl_kind c))))
            (form_fields g) g.

(** [EmployeesTable._saveEmployee] *)
Definition _saveEmployee (g : Grid) : Grid :=
  let employeeFields := form_fields g in
  let (ok, g1) := validateEmployee employeeFields g in
  if ok then
    let (row, g2) := _buildEmployeeRow employeeFields g1 in
    let g3 := with_rows g2 (rows g2 ++ [row]) in
    let g4 := _sortByColumn (Some (COLUMN_INDEX g3)) g3 in
    form_reset g4
  else g1.

(** Submitting the form: every field is [required], so the browser's
    constraint validation fires [submit] only when no field is empty. *)
Definition submit_form (g : Grid) : Grid :=
  if forallb (fun id => match ctl_get g id with
                        | Some c => negb (String.eqb (ctl_value c) "")
                        | None => true
                        end) (form_fields g)
  then _saveEmployee g else g.

(** ** User events *)

Inductive Event :=
| HeaderClick (colIndex : nat)   (* click on a header cell *)
| DblClick (target : Target)     (* double click in the table body *)
| Focus (ctl : nat)              (* click into a control *)
| Blur                           (* click on a non-focusable part of the page *)
| Input (value : string)         (* the focused control's value becomes [value] *)
| KeyEnter                       (* Enter in the focused control *)
| SubmitClick.                   (* click on the form's submit button *)

Definition in_body (g : Grid) (c : nat) : bool :=
  existsb (fun td => match td_content td with Holds c' => Nat.eqb c c' | Text _ => false end)
          (concat (rows g)).

Definition in_document (g : Grid) (c : nat) : bool :=
  in_body g c || existsb (Nat.eqb c) (form_fields g).

(** The keydown listener of an editor control, for Enter. *)
Definition editor_enter (c : nat) (ed : InlineEditor) (g : Grid) : Grid :=
  let g1 := ctl_update g c drop_focusout in
  blur c (complete ed g1).

Definition step (e : Event) (g : Grid) : Grid :=
  match e with
  | HeaderClick i =>
      let g1 := blur_any g in
      if Nat.ltb i (length (headers g1)) then _sortByColumnHandler i g1 else g1
  | DblClick (TTd id) =>
      let g1 := blur_any g in
      match find_td g1 id with Some _ => on_dblclick (TTd id) g1 | None => g1 end
  | DblClick (TCtl c) =>
      if in_document g c then
        let g1 := focus c g in
        if in_body g1 c then on_dblclick (TCtl c) g1 else g1
      else g
  | Focus c => if in_document g c then focus c g else g
  | Blur => blur_any g
  | Input v =>
      match focused g with
      | Some c => ctl_update g c (fun ctl => set_ctl_value ctl (sanitize (ctl_kind ctl) v))
      | None => g
      end
  | KeyEnter =>
      match focused g with
      | Some c =>
          match ctl_get g c with
          | Some ctl =>
              match ctl_owner ctl, ctl_kind ctl with
              | Some ed, _ => editor_enter c ed g
              | None, InputControl _ => if existsb (Nat.eqb c) (form_fields g) then submit_form g else g
              | None, SelectControl _ => g
              end
          | None => g
          end
      | None => g
      end
  | SubmitClick => submit_form (blur_any g)
  end.

Definition run (es : list Event) (g : Grid) : Grid := fold_left (fun g e => step e g) es g.

(** ** Construction: [new EmployeesTable('table', ourComparators)] *)

(** The salary comparator of [ourComparators]. *)
Definition salary_comparator (a b : string) (sortType : Z) : num :=
  mul_int (sub (parseFloat (keep_digits_dots_commas a)) (parseFloat (keep_digits_dots_commas b))) sortType.

Definition ourComparators : list (Z * Comparator) := [(4, salary_comparator)].

Fixpoint build_rows (start : nat) (data : list (list string)) : list (list Td) * nat :=
  match data with
  | [] => ([], start)
  | r :: rs =>
      let row := mapi_from (fun i s => {| td_id := start + i; td_content := Text s; td_hidden := false |}) 0 r in
      let (rest, next) := build_rows (start + length r) rs in
      (row :: rest, next)
  end.

(** [generateElement(true, required, type, ...args)] in [_createEmployeeForm]. *)
Definition form_control (conf : FieldConf) : Control :=
  let name := arg_text (nth_error (args conf) 0) "undefined" in
  let kind := match GeneratorClass conf, nth_error (args conf) 1 with
              | SelectFieldGenerator, Some (AArr opts) => SelectControl opts
              | SelectFieldGenerator, _ => SelectControl []
              | InputFieldGenerator, _ => InputControl (type conf)
              end in
  {| ctl_kind := kind; ctl_name := name; ctl_value := reset_value kind;
     ctl_validator := validator conf; ctl_focusout := false; ctl_owner := None |}.

(** The state after the constructor: body cells with ids from 0, then the
    form controls, each field's validator bound to its form control. *)
Definition new_EmployeesTable (data : list (list string)) (columns : nat)
    (customComparators : list (Z * Comparator)) : Grid :=
  let (body, start) := build_rows 0 data in
  let ctls := mapi_from (fun i conf => ((start + i)%nat, form_control conf)) 0 FIELDS in
  let bound := fold_left (fun vs '(id, c) =>
                  match ctl_validator c with
                  | Some vid => match assoc vid vs with
                                | Some v => assoc_set vid {| v_rules := v_rules v; _field := Some id |} vs
                                | None => vs
                                end
                  | None => vs
                  end) ctls FIELD_VALIDATORS in
  {| heap := ctls; validators := bound; rows := body; headers := repeat [] columns;
     COLUMN_INDEX := -1; SORT := STATE_NONE; _activeEditor := None;
     _customComparators := customComparators; notifications := []; focused := None;
     form_fields := map fst ctls; next_id := (start + length FIELDS)%nat |}.

Definition sample_data : list (list string) :=
  [ ["Airi Satou"; "Accountant"; "Tokyo"; "33"; "$162,700"];
    ["Angelica Ramos"; "Chief Executive Officer (CEO)"; "London"; "47"; "$1,200,000"];
    ["Ashton Cox"; "Junior Technical Author"; "San Francisco"; "66"; "$86,000"] ].

Definition sample_grid : Grid := new_EmployeesTable sample_data 5 ourComparators.

(** ** Specification-side definitions *)

(** The outcome a rule contributes to [validate]: a missing function and a
    throwing function both become failures carrying a diagnostic. *)
Definition rule_result (value : string) (rule : Rule) : RuleResult :=
  match rule_func rule with
  | None => {| r_success := false;
               r_message := Some ("Validation " ++ rule_name rule ++ " is not defined")%string |}
  | Some f =>
      match f value with
      | Returned r => r
      | Threw e => {| r_success := false;
                      r_message := Some ("Validation " ++ rule_name rule ++ " failed: " ++ e)%string |}
      end
  end.

(** The pipeline as the specification states it: every rule's outcome,
    success the conjunction, failure messages joined in rule order. *)
Definition spec_validate (value : string) (rules : list Rule) : BaseValidationResult :=
  let results := map (rule_result value) rules in
  {| success := forallb r_success results;
     message := join "; " (map r_message (filter (fun r => negb (r_success r)) results)) |}.

Definition is_sort_class (c : string) : bool := existsb (String.eqb c) STATE_CLASS_values.

(** Sort state reachable by the sort engine: no active column with
    direction none, or an active column with a definite direction. *)
Definition sorter_ok (g : Grid) : Prop :=
  (COLUMN_INDEX g = -1 /\ SORT g = STATE_NONE) \/
  (0 <= COLUMN_INDEX g /\ (SORT g = STATE_ASC \/ SORT g = STATE_DESC)).

(** The sorter state [{COLUMN_INDEX, SORT}] of a grid. *)
Definition sorter (g : Grid) : Z * Z := (COLUMN_INDEX g, SORT g).

Definition sorter_sum (r : (Grid * InlineEditor) + Grid) : Z * Z :=
  match r with inl (g, _) => sorter g | inr g => sorter g end.

(** A table with a sixth body column, which has no entry in [FIELDS]. *)
Definition six_column_grid : Grid :=
  new_EmployeesTable [["Airi Satou"; "Accountant"; "Tokyo"; "33"; "$162,700"; "note"]] 6 ourComparators.

(** The age cell of the first row opened for editing and set to "17". *)
Definition age_edit_17 : Grid := run [DblClick (TTd 3); Input "17"] sample_grid.

Definition age_edit_17_editor : InlineEditor :=
  {| originElement := Some 3%nat; targetElement := Some (20%nat, 21%nat);
     editor_validator := Some age_validator; onComplete := true |}.

(** The result of the validator bound to a form field, when it has one. *)
Definition field_outcome (g : Grid) (id : nat) : option BaseValidationResult :=
  match option_map ctl_validator (ctl_get g id) with
  | Some (Some vid) => Some (run_validator g vid)
  | _ => None
  end.

Definition field_passes (g : Grid) (id : nat) : bool :=
  match field_outcome g id with Some r => success r | None => true end.

(** The notifications a field contributes to [validateEmployee]. *)
Definition field_notes (g : Grid) (id : nat) : list Notification :=
  match field_outcome g id with
  | Some r => if success r then []
              else [{| n_title := "Validation failed"; n_description := message r; n_type := ERROR |}]
  | None => []
  end.

(** The creation form of [sample_grid] (controls 15 to 19) filled in with
    a valid employee. *)
Definition sample_form_filled : Grid :=
  fold_left (fun g '(id, v) => ctl_update g id (fun c => set_ctl_value c v))
    [(15%nat, "Alice Smith"); (16%nat, "Engineer"); (17%nat, "Tokyo"); (18%nat, "30"); (19%nat, "5000")]
    sample_grid.

(** ** Notification placement: [CustomNotificationManager.pushNotification] *)

Definition NOTIFICATION_POS_RIGHT : string := "10px".
Definition NOTIFICATION_POS_TOP : Z := 10.
Definition NOTIFICATION_POS_Y_DELTA : Z := 10.

(** A notification element on the page.  [el_top] is the [style.top] the
    builder sets, in px, which is also the [offsetTop] it reads back (the
    elements are positioned in the body); [el_height] is its rendered
    [offsetHeight], chosen by the browser. *)
Record NotificationEl := {
  el_class : NotificationType;
  el_title : string;
  el_description : string;
  el_top : Z;
  el_right : string;
  el_height : Z }.

(** [notifications[notifications.length - 1]] ([undefined] for an empty list). *)
Definition lastNotification (notifications : list NotificationEl) : option NotificationEl :=
  nth_error notifications (length notifications - 1).

(** [CustomNotificationBuilder.createNotification]: the container's
    notifications, in document order, after [container.append]. *)
Definition createNotification (container : list NotificationEl) (className : NotificationType)
    (posRight title description : string) (offsetHeight : Z) : list NotificationEl * NotificationEl :=
  let top := (match lastNotification container with
              | Some l => el_top l + el_height l
              | None => NOTIFICATION_POS_TOP
              end) + NOTIFICATION_POS_Y_DELTA in
  let notificationEl := {| el_class := className; el_title := title; el_description := description;
                           el_top := top; el_right := posRight; el_height := offsetHeight |} in
  (container ++ [notificationEl], notificationEl).

(** [notificationEl.remove()] for the element at position [i]. *)
Fixpoint remove_at {A} (i : nat) (l : list A) : list A :=
  match l, i with
  | [], _ => []
  | _ :: r, O => r
  | x :: r, S i' => x :: remove_at i' r
  end.

(** What happens to the notifications of the page: a push (with the
    height the new element renders at) or the timeout of one of them. *)
Inductive NotificationEvent :=
| NPush (title description : string) (type : NotificationType) (offsetHeight : Z)
| NExpire (i : nat).

Definition notification_step (container : list NotificationEl) (e : NotificationEvent) : list NotificationEl :=
  match e with
  | NPush title description type h =>
      fst (createNotification container type NOTIFICATION_POS_RIGHT title description h)
  | NExpire i => remove_at i container
  end.

Definition notification_run (es : list NotificationEvent) (container : list NotificationEl) : list NotificationEl :=
  fold_left notification_step es container.

(** The vertical spacing the builder keeps between two notifications. *)
Definition spaced_below (a b : NotificationEl) : Prop :=
  el_top a + el_height a + NOTIFICATION_POS_Y_DELTA <= el_top b.

(** ** Validator pipeline *)

Lemma fold_validate_step (value : string) (rules : list Rule) :
  forall ok ms,
  fold_left (validate_step value) rules (ok, ms) =
  (ok && forallb r_success (map (rule_result value) rules),
   ms ++ map r_message (filter (fun r => negb (r_success r)) (map (rule_result value) rules))).
Proof.
  induction rules as [| rule rules IH]; intros ok ms.
  - simpl. rewrite andb_true_r, app_nil_r. reflexivity.
  - cbn [fold_left map filter forallb].
    assert (Hstep : validate_step value (ok, ms) rule =
                    (ok && r_success (rule_result value rule),
                     ms ++ (if r_success (rule_result value rule) then []
                            else [r_message (rule_result value rule)]))).
    { unfold validate_step, rule_result.
      destruct (rule_func rule) as [f |]; [destruct (f value) as [r | e] |]; simpl.
      - destruct (r_success r); simpl.
        + rewrite andb_true_r, app_nil_r. reflexivity.
        + rewrite andb_false_r. reflexivity.
      - rewrite andb_false_r. reflexivity.
      - rewrite andb_false_r. reflexivity. }
    rewrite Hstep, IH.
    destruct (r_success (rule_result value rule)); simpl.
    + rewrite app_nil_r, andb_true_r. reflexivity.
    + rewrite andb_false_r, andb_false_l, <- app_assoc. reflexivity.
Qed.

(** C5: [validate] runs every rule in order with no short-circuit: its
    success is the conjunction of all rule outcomes and its message the
    failing rules' messages (a throwing rule contributing a failure with
    the error text) joined with "; " in rule order; an unbound validator
    yields [{success:false, message:"Field not bound"}]. *)
Theorem validate_runs_every_rule :
  forall rules : list Rule,
    validate None rules = {| success := false; message := "Field not bound" |} /\
    (forall v : option string,
        validate (Some v) rules = spec_validate (trim (match v with Some s => s | None => "" end)) rules) /\
    (forall value name f e, f value = Threw e ->
        rule_result value {| rule_name := name; rule_func := Some f |} =
        {| r_success := false; r_message := Some ("Validation " ++ name ++ " failed: " ++ e)%string |}).
Proof.
  intros rules. split; [reflexivity | split].
  - intros v. unfold validate, spec_validate. rewrite fold_validate_step. reflexivity.
  - intros value name f e He. unfold rule_result. simpl. rewrite He. reflexivity.
Qed.

(** C9: the numeric-range validator with bounds [18,90]: "17" fails the min
    rule, "91" fails the max rule, "18" and "90" pass, "abc" fails both
    rules with the type message; in each rule the non-numeric test comes
    before the bound test. *)
Theorem NumScope_age_18_90 :
  validate (Some (Some "17")) (NumScopeValidator "age" 18 90)
    = {| success := false; message := "Minimum age is 18" |} /\
  validate (Some (Some "91")) (NumScopeValidator "age" 18 90)
    = {| success := false; message := "Maximum age is 90" |} /\
  validate (Some (Some "18")) (NumScopeValidator "age" 18 90)
    = {| success := true; message := "" |} /\
  validate (Some (Some "90")) (NumScopeValidator "age" 18 90)
    = {| success := true; message := "" |} /\
  validate (Some (Some "abc")) (NumScopeValidator "age" 18 90)
    = {| success := false; message := "age must be a number; age must be a number" |} /\
  (forall fieldName minValue maxValue value,
      map (rule_result value) (NumScopeValidator fieldName minValue maxValue) =
      [ if is_nan (Number value)
        then {| r_success := false; r_message := Some (fieldName ++ " must be a number")%string |}
        else if lt (Number value) (Fin (inject_Z minValue))
        then {| r_success := false; r_message := Some ("Minimum " ++ fieldName ++ " is " ++ Z_to_js minValue)%string |}
        else {| r_success := true; r_message := None |};
        if is_nan (Number value)
        then {| r_success := false; r_message := Some (fieldName ++ " must be a number")%string |}
        else if lt (Fin (inject_Z maxValue)) (Number value)
        then {| r_success := false; r_message := Some ("Maximum " ++ fieldName ++ " is " ++ Z_to_js maxValue)%string |}
        else {| r_success := true; r_message := None |} ]).
Proof.
  repeat split; try reflexivity.
  intros fieldName minValue maxValue value. unfold rule_result, NumScopeValidator, fail, pass; simpl.
  destruct (Number value) as [| [] | q]; simpl; try reflexivity.
  destruct (Qle_bool (inject_Z minValue) q), (Qle_bool q (inject_Z maxValue)); reflexivity.
Qed.

Lemma drop_ws_all (l : list ascii) : forallb is_ws l = true -> drop_ws l = [].
Proof.
  induction l as [| c l IH]; simpl; [reflexivity |].
  intros H. apply andb_prop in H as [Hc Hl]. rewrite Hc. apply IH, Hl.
Qed.

Lemma trim_ws_only (s : string) : forallb is_ws (chars s) = true -> trim s = "".
Proof.
  intros H. unfold trim, trim_l. rewrite (drop_ws_all _ H). reflexivity.
Qed.

Lemma lt_zero_bound (m : Z) : 0 < m -> lt (Fin 0%Q) (Fin (inject_Z m)) = true.
Proof.
  intros Hm. unfold lt, Qle_bool. simpl.
  destruct (Z.leb_spec (m * 1) 0); simpl; lia.
Qed.

Lemma lt_bound_zero (m : Z) : 0 <= m -> lt (Fin (inject_Z m)) (Fin 0%Q) = false.
Proof.
  intros Hm. unfold lt, Qle_bool. simpl.
  destruct (Z.leb_spec 0 (m * 1)); simpl; lia.
Qed.

(** C10: with a positive minimum, an empty or whitespace-only value is
    trimmed to "" and read by [Number] as 0: it fails the min rule with the
    range message and passes the max rule. *)
Theorem NumScope_blank_is_zero :
  forall fieldName minValue maxValue s,
    0 < minValue -> minValue <= maxValue -> forallb is_ws (chars s) = true ->
    validate (Some (Some s)) (NumScopeValidator fieldName minValue maxValue)
    = {| success := false; message := "Minimum " ++ fieldName ++ " is " ++ Z_to_js minValue |}.
Proof.
  intros fieldName minValue maxValue s Hmin Hmax Hs.
  unfold validate. rewrite (trim_ws_only s Hs).
  cbn -[lt Z_to_js].
  rewrite (lt_zero_bound minValue Hmin). cbn -[lt Z_to_js].
  rewrite (lt_bound_zero maxValue ltac:(lia)).
  reflexivity.
Qed.

Lemma NumScope_blank_is_zero_witness :
  (0 < 18 /\ 18 <= 90 /\ forallb is_ws (chars "  ") = true) /\
  validate (Some (Some "  ")) (NumScopeValidator "age" 18 90)
  = {| success := false; message := "Minimum " ++ "age" ++ " is " ++ Z_to_js 18 |}.
Proof.
  split; [split; [lia | split; [lia | reflexivity]] |].
  apply (NumScope_blank_is_zero "age" 18 90 "  "); [lia | lia | reflexivity].
Defined.

(** ** Default comparator *)

(** C3 (counterexample): "1 000" and "999" both match the decimal pattern
    once whitespace and commas are stripped, so the claim compares them
    numerically ("999" first); the code tests the pattern on the trimmed
    strings, where "1 000" does not match, and compares them as strings
    ("1 000" first). *)
Lemma defaultComparator_space_counterexample :
  sign (_defaultComparator "1 000" "999" STATE_ASC) = -1 /\
  sign (spec_defaultComparator "1 000" "999" STATE_ASC) = 1.
Proof. split; reflexivity. Qed.

Lemma sgn_mul_m1 (n : Z) : Z.sgn (n * -1) = - Z.sgn (n * 1).
Proof. rewrite Z.mul_1_r, <- Z.opp_eq_mul_m1, Z.sgn_opp. reflexivity. Qed.

(** C3 (amended): the default comparator returns 0 for two empty trimmed
    values, -sign or +sign when only the first or only the second is empty,
    compares numerically the parses of the whitespace- and comma-stripped
    values when both TRIMMED values (not the stripped ones) fully match
    [^-?\d+([.,]\d+)?$] and both parses are finite, and otherwise compares
    them as case-insensitive strings; the direction multiplies the result,
    so descending is the exact opposite of ascending.  On the spec's pairs
    "9" sorts before "10" and "alice" before "Bob" ascending. *)
Theorem defaultComparator_cases :
  (forall a b sortType,
     _defaultComparator a b sortType =
     (let normA := trim a in
      let normB := trim b in
      if String.eqb normA "" && String.eqb normB "" then Fin 0%Q
      else if String.eqb normA "" then Fin (inject_Z (- sortType))
      else if String.eqb normB "" then Fin (inject_Z sortType)
      else if match_signed_decimal normA && match_signed_decimal normB &&
              is_finite (parseFloat (strip_ws_commas normA)) &&
              is_finite (parseFloat (strip_ws_commas normB))
      then mul_int (sub (parseFloat (strip_ws_commas normA)) (parseFloat (strip_ws_commas normB))) sortType
      else Fin (inject_Z (localeCompare normA normB * sortType)))) /\
  (forall a b, sign (_defaultComparator a b STATE_DESC) = - sign (_defaultComparator a b STATE_ASC)) /\
  sign (_defaultComparator "10" "9" STATE_ASC) = 1 /\
  sign (_defaultComparator "Bob" "alice" STATE_ASC) = 1.
Proof.
  split; [| split; [| split; reflexivity]].
  - intros a b sortType. unfold _defaultComparator. cbv zeta.
    destruct (String.eqb (trim a) ""), (String.eqb (trim b) ""); simpl; try reflexivity.
    destruct (is_finite (parseFloat (strip_ws_commas (trim a)))),
      (is_finite (parseFloat (strip_ws_commas (trim b)))),
      (match_signed_decimal (trim a)), (match_signed_decimal (trim b)); reflexivity.
  - intros a b. unfold _defaultComparator, STATE_DESC, STATE_ASC.
    destruct (String.eqb (trim a) ""), (String.eqb (trim b) ""); simpl; try reflexivity.
    destruct (parseFloat (strip_ws_commas (trim a))) as [| ba | x];
      destruct (parseFloat (strip_ws_commas (trim b))) as [| bb | y]; simpl;
      try (destruct (match_signed_decimal (trim a)), (match_signed_decimal (trim b)); simpl);
      unfold qsign; simpl; try apply sgn_mul_m1.
Qed.

(** ** Sort indicator classes of the header cells *)

Lemma nth_error_mapi_from {A B} (f : nat -> A -> B) (l : list A) :
  forall k i, nth_error (mapi_from f k l) i = option_map (f (k + i)%nat) (nth_error l i).
Proof.
  induction l as [| x l IH]; intros k [| i]; simpl; try reflexivity.
  - rewrite Nat.add_0_r. reflexivity.
  - rewrite IH. f_equal. f_equal. lia.
Qed.

Lemma filter_filter {A} (p q : A -> bool) (l : list A) :
  filter q (filter p l) = filter (fun x => p x && q x) l.
Proof.
  induction l as [| x l IH]; simpl; [reflexivity |].
  destruct (p x); simpl; [destruct (q x); simpl; rewrite IH; reflexivity | exact IH].
Qed.

Lemma filter_ext_bool {A} (p q : A -> bool) (l : list A) :
  (forall x, p x = q x) -> filter p l = filter q l.
Proof.
  intros H. induction l as [| x l IH]; simpl; [reflexivity |]. rewrite H, IH. reflexivity.
Qed.

Lemma fold_classList_remove (cs th : list string) :
  fold_left (fun l c => classList_remove c l) cs th =
  filter (fun x => negb (existsb (String.eqb x) cs)) th.
Proof.
  revert th. induction cs as [| c cs IH]; intros th; simpl.
  - symmetry. induction th as [| x th IHth]; simpl; [reflexivity |]. rewrite IHth. reflexivity.
  - rewrite IH. unfold classList_remove. rewrite filter_filter.
    apply filter_ext_bool. intros x. destruct (String.eqb x c); reflexivity.
Qed.

Lemma sort_class_not_in_base (c : string) (th : list string) :
  is_sort_class c = true ->
  existsb (String.eqb c) (filter (fun x => negb (is_sort_class x)) th) = false.
Proof.
  intros Hc. induction th as [| x th IH]; simpl; [reflexivity |].
  destruct (is_sort_class x) eqn:Hx; simpl; [exact IH |].
  destruct (String.eqb c x) eqn:Hcx; simpl; [| exact IH].
  apply String.eqb_eq in Hcx. subst. congruence.
Qed.

(** C4 (counterexample): after clicking the first header of a fresh table,
    the second header carries no sort class at all, not the "none" class. *)
Lemma sort_headers_none_class_counterexample :
  headers (step (HeaderClick 0) sample_grid) = [["sorted-asc"]; []; []; []; []] /\
  ~ In "sorted-none" (nth 1 (headers (step (HeaderClick 0) sample_grid)) []).
Proof. split; [reflexivity | simpl; tauto]. Qed.

(** C4 (amended): a sort run removes every sort class from every header
    cell, keeps their other classes, and adds the class of the current
    direction to the header whose index is the active column only: every
    other header (and every header when no column is active, index -1) is
    left with no sort class; the "none" class is never given to them. *)
Theorem sortByColumn_header_classes :
  forall columnIndex g i th,
    (SORT g = STATE_ASC \/ SORT g = STATE_DESC \/ SORT g = STATE_NONE) ->
    nth_error (headers g) i = Some th ->
    nth_error (headers (_sortByColumn columnIndex g)) i =
    Some (let base := filter (fun c => negb (is_sort_class c)) th in
          if Z.of_nat i =? COLUMN_INDEX g then base ++ [STATE_CLASS (SORT g)] else base).
Proof.
  intros columnIndex g i th Hsort Hth.
  change (headers (_sortByColumn columnIndex g))
    with (mapi_from (prepare_header (COLUMN_INDEX g) (SORT g)) 0 (headers g)).
  rewrite nth_error_mapi_from, Hth. simpl. f_equal.
  unfold prepare_header. rewrite fold_classList_remove.
  destruct (Z.of_nat i =? COLUMN_INDEX g); [| reflexivity].
  unfold classList_add. rewrite sort_class_not_in_base; [reflexivity |].
  destruct Hsort as [-> | [-> | ->]]; reflexivity.
Qed.

Lemma sortByColumn_header_classes_witness :
  (SORT (step (HeaderClick 0) sample_grid) = STATE_ASC \/
   SORT (step (HeaderClick 0) sample_grid) = STATE_DESC \/
   SORT (step (HeaderClick 0) sample_grid) = STATE_NONE) /\
  nth_error (headers (_sortByColumn (Some 0) (step (HeaderClick 0) sample_grid))) 0 =
  Some (let base := filter (fun c => negb (is_sort_class c)) ["sorted-asc"] in
        if Z.of_nat 0 =? COLUMN_INDEX (step (HeaderClick 0) sample_grid)
        then base ++ [STATE_CLASS (SORT (step (HeaderClick 0) sample_grid))] else base).
Proof.
  split; [left; reflexivity |].
  apply (sortByColumn_header_classes (Some 0) (step (HeaderClick 0) sample_grid) 0 ["sorted-asc"]).
  - left; reflexivity.
  - reflexivity.
Defined.

(** ** The sorter state across user events *)

Lemma sorter_ctl_put g id c : sorter (ctl_put g id c) = sorter g.
Proof. reflexivity. Qed.

Lemma sorter_ctl_update g id f : sorter (ctl_update g id f) = sorter g.
Proof. unfold ctl_update. destruct (ctl_get g id); reflexivity. Qed.

Lemma sorter_bindField g vid field : sorter (bindField g vid field) = sorter g.
Proof. unfold bindField. destruct (val_get g vid); reflexivity. Qed.

Lemma sorter_pushNotification g t d k : sorter (pushNotification g t d k) = sorter g.
Proof. reflexivity. Qed.

Lemma sorter_set_td_text id s g : sorter (set_td_text id s g) = sorter g.
Proof. reflexivity. Qed.

Lemma sorter_set_td_hidden id h g : sorter (set_td_hidden id h g) = sorter g.
Proof. reflexivity. Qed.

Lemma sorter_insert_after id box g : sorter (insert_after id box g) = sorter g.
Proof. reflexivity. Qed.

Lemma sorter_remove_td id g : sorter (remove_td id g) = sorter g.
Proof. reflexivity. Qed.

Lemma sorter_with_rows g r : sorter (with_rows g r) = sorter g.
Proof. reflexivity. Qed.

Lemma sorter_with_activeEditor g e : sorter (with_activeEditor g e) = sorter g.
Proof. reflexivity. Qed.

Lemma sorter_with_focused g f : sorter (with_focused g f) = sorter g.
Proof. reflexivity. Qed.

Lemma sorter_with_next_id g n : sorter (with_next_id g n) = sorter g.
Proof. reflexivity. Qed.

Lemma sorter_sortByColumn c g : sorter (_sortByColumn c g) = sorter g.
Proof. reflexivity. Qed.

Create Rewrite HintDb sorter_db.
#[local] Hint Rewrite sorter_ctl_put sorter_ctl_update sorter_bindField sorter_pushNotification
  sorter_set_td_text sorter_set_td_hidden sorter_insert_after sorter_remove_td sorter_with_rows
  sorter_with_activeEditor sorter_with_focused sorter_with_next_id sorter_sortByColumn : sorter_db.

Ltac sorter_tac :=
  repeat first
    [ progress autorewrite with sorter_db
    | progress cbn [fst snd sorter_sum]
    | match goal with |- context [match ?x with _ => _ end] => destruct x end
    | reflexivity ].

Lemma sorter_complete_commit ed box cid g : sorter (complete_commit ed box cid g) = sorter g.
Proof. unfold complete_commit. cbv zeta. sorter_tac. Qed.
#[local] Hint Rewrite sorter_complete_commit : sorter_db.

Lemma sorter_complete ed g : sorter (complete ed g) = sorter g.
Proof. unfold complete. cbv zeta. sorter_tac. Qed.
#[local] Hint Rewrite sorter_complete : sorter_db.

Lemma sorter_fire_focusout c g : sorter (fire_focusout c g) = sorter g.
Proof. unfold fire_focusout. sorter_tac. Qed.
#[local] Hint Rewrite sorter_fire_focusout : sorter_db.

Lemma sorter_blur c g : sorter (blur c g) = sorter g.
Proof. unfold blur. sorter_tac. Qed.
#[local] Hint Rewrite sorter_blur : sorter_db.

Lemma sorter_blur_any g : sorter (blur_any g) = sorter g.
Proof. unfold blur_any. sorter_tac. Qed.
#[local] Hint Rewrite sorter_blur_any : sorter_db.

Lemma sorter_focus c g : sorter (focus c g) = sorter g.
Proof. unfold focus. sorter_tac. Qed.
#[local] Hint Rewrite sorter_focus : sorter_db.

Lemma sorter_new_InlineEditor t fields cb g :
  sorter_sum (new_InlineEditor t fields cb g) = sorter g.
Proof. unfold new_InlineEditor. cbv zeta. sorter_tac. Qed.

Lemma sorter_on_dblclick t g : sorter (on_dblclick t g) = sorter g.
Proof.
  unfold on_dblclick.
  set (g1 := match _activeEditor g with Some ed => complete ed g | None => g end).
  assert (H1 : sorter g1 = sorter g) by (subst g1; sorter_tac).
  pose proof (sorter_new_InlineEditor t FIELDS true g1) as H2.
  destruct (new_InlineEditor t FIELDS true g1) as [[g2 ed] | g2]; cbn [sorter_sum] in H2;
    [rewrite sorter_with_activeEditor |]; congruence.
Qed.
#[local] Hint Rewrite sorter_on_dblclick : sorter_db.

Lemma sorter_validate_fields ids :
  forall st, sorter (snd (fold_left validate_field ids st)) = sorter (snd st).
Proof.
  induction ids as [| id ids IH]; intros [ok g]; cbn [fold_left]; [reflexivity |].
  rewrite IH. unfold validate_field. sorter_tac.
Qed.

Lemma sorter_validateEmployee ids g : sorter (snd (validateEmployee ids g)) = sorter g.
Proof.
  unfold validateEmployee.
  pose proof (sorter_validate_fields ids (true, g)) as H.
  destruct (fold_left validate_field ids (true, g)) as [ok g1].
  cbn [snd] in H. destruct ok; cbn [snd]; [rewrite sorter_pushNotification |]; exact H.
Qed.

Lemma sorter_form_reset g : sorter (form_reset g) = sorter g.
Proof.
  unfold form_reset. generalize (form_fields g) as ids. intros ids. revert g.
  induction ids as [| id ids IH]; intros g; cbn [fold_left]; [reflexivity |].
  rewrite IH, sorter_ctl_update. reflexivity.
Qed.

Lemma sorter_saveEmployee g : sorter (_saveEmployee g) = sorter g.
Proof.
  unfold _saveEmployee.
  pose proof (sorter_validateEmployee (form_fields g) g) as H.
  destruct (validateEmployee (form_fields g) g) as [ok g1]. cbn [snd] in H.
  destruct ok; [| exact H].
  assert (H2 : sorter (snd (_buildEmployeeRow (form_fields g) g1)) = sorter g1) by reflexivity.
  destruct (_buildEmployeeRow (form_fields g) g1) as [row g2]. cbn [snd] in H2.
  rewrite sorter_form_reset, sorter_sortByColumn, sorter_with_rows. congruence.
Qed.
#[local] Hint Rewrite sorter_saveEmployee : sorter_db.

Lemma sorter_submit_form g : sorter (submit_form g) = sorter g.
Proof. unfold submit_form. sorter_tac. Qed.
#[local] Hint Rewrite sorter_submit_form : sorter_db.

Lemma sorter_editor_enter c ed g : sorter (editor_enter c ed g) = sorter g.
Proof. unfold editor_enter. sorter_tac. Qed.
#[local] Hint Rewrite sorter_editor_enter : sorter_db.

Lemma sorter_sortByColumnHandler i g :
  sorter (_sortByColumnHandler i g) =
  (Z.of_nat i, if COLUMN_INDEX g =? Z.of_nat i then - SORT g else STATE_ASC).
Proof.
  unfold _sortByColumnHandler. rewrite sorter_sortByColumn.
  destruct (COLUMN_INDEX g =? Z.of_nat i) eqn:E; [| reflexivity].
  apply Z.eqb_eq in E. unfold sorter. cbn. rewrite E. f_equal. lia.
Qed.

Lemma sorter_step_other e g :
  (forall i, e <> HeaderClick i) -> sorter (step e g) = sorter g.
Proof.
  intros He. destruct e as [i | [id | c] | c | | v | |]; cbn [step].
  - exfalso. exact (He i eq_refl).
  - sorter_tac.
  - sorter_tac.
  - sorter_tac.
  - sorter_tac.
  - sorter_tac.
  - sorter_tac.
  - sorter_tac.
Qed.

Lemma sorter_ok_sorter g g' : sorter g' = sorter g -> sorter_ok g -> sorter_ok g'.
Proof.
  unfold sorter, sorter_ok. intros H. injection H as H1 H2. rewrite H1, H2. tauto.
Qed.

Lemma sorter_ok_step e g : sorter_ok g -> sorter_ok (step e g).
Proof.
  intros Hok. destruct e as [i | t | c | | v | |];
    try (apply (sorter_ok_sorter g); [apply sorter_step_other; discriminate | exact Hok]).
  cbn [step]. pose proof (sorter_blur_any g) as Hb.
  destruct (Nat.ltb i (length (headers (blur_any g)))).
  - pose proof (sorter_sortByColumnHandler i (blur_any g)) as H.
    remember (_sortByColumnHandler i (blur_any g)) as g' eqn:Eg. clear Eg.
    remember (blur_any g) as g1 eqn:E1. clear E1.
    unfold sorter in H, Hb. injection H as Hc Hs. injection Hb as Hbc Hbs.
    unfold sorter_ok in *. rewrite Hc, Hs, Hbc, Hbs.
    destruct (COLUMN_INDEX g =? Z.of_nat i) eqn:E; right; (split; [lia |]).
    + apply Z.eqb_eq in E. unfold STATE_ASC, STATE_DESC, STATE_NONE in *. lia.
    + left; reflexivity.
  - exact (sorter_ok_sorter g _ Hb Hok).
Qed.

Lemma sorter_ok_run es : forall g, sorter_ok g -> sorter_ok (run es g).
Proof.
  induction es as [| e es IH]; intros g Hok; [exact Hok |].
  apply IH. apply sorter_ok_step. exact Hok.
Qed.

Lemma sorter_ok_new_EmployeesTable data columns customComparators :
  sorter_ok (new_EmployeesTable data columns customComparators).
Proof.
  unfold new_EmployeesTable. destruct (build_rows 0 data).
  left. split; reflexivity.
Qed.

(** C7: a click on the header cell [i] of the table makes [i] the active
    column; the direction is the opposite of the current one when [i] was
    already the active column, and ascending otherwise.  From the initial
    state (no active column, direction none) every sequence of user events
    keeps the invariant [sorter_ok]: an active column always has direction
    ascending or descending, so the direction none is never reached again
    and a click on the active column swaps ascending and descending. *)
Theorem header_click_sort_direction :
  (forall i g,
     sorter (step (HeaderClick i) g) =
     if Nat.ltb i (length (headers (blur_any g)))
     then (Z.of_nat i, if COLUMN_INDEX g =? Z.of_nat i then - SORT g else STATE_ASC)
     else sorter g) /\
  (forall data columns customComparators es,
     sorter_ok (run es (new_EmployeesTable data columns customComparators))).
Proof.
  split.
  - intros i g. cbn [step].
    destruct (Nat.ltb i (length (headers (blur_any g)))); [| apply sorter_blur_any].
    rewrite sorter_sortByColumnHandler.
    pose proof (sorter_blur_any g) as Hb. unfold sorter in Hb. injection Hb as Hbc Hbs.
    rewrite Hbc, Hbs. reflexivity.
  - intros data columns customComparators es.
    apply sorter_ok_run, sorter_ok_new_EmployeesTable.
Qed.

(** ** Completion of an inline edit that fails validation *)

(** C6: when the control of an inline editor carries a validator that
    fails, [complete] only reports the failure through the notifier: the
    state is otherwise unchanged, so the control stays in the body, its
    focusout listener stays attached, the origin cell keeps its text and
    stays hidden, and the editor stays the active one. *)
Theorem complete_validation_failure_keeps_editing :
  forall ed g box cid r p td c vid,
    targetElement ed = Some (box, cid) ->
    find_td g box = Some (r, p, td) ->
    td_content td = Holds c ->
    option_map ctl_validator (ctl_get g c) = Some (Some vid) ->
    success (run_validator g vid) = false ->
    complete ed g = pushNotification g "Validation failed" (message (run_validator g vid)) ERROR /\
    rows (complete ed g) = rows g /\ heap (complete ed g) = heap g /\
    _activeEditor (complete ed g) = _activeEditor g /\ focused (complete ed g) = focused g.
Proof.
  intros ed g box cid r p td c vid Ht Hf Hc Hv Hs.
  assert (E : complete ed g =
              pushNotification g "Validation failed" (message (run_validator g vid)) ERROR).
  { unfold complete, first_child. rewrite Ht, Hf, Hc, Hv, Hs. reflexivity. }
  rewrite E. repeat split; reflexivity.
Qed.

Lemma complete_validation_failure_keeps_editing_witness :
  _activeEditor age_edit_17 = Some age_edit_17_editor /\
  (targetElement age_edit_17_editor = Some (20%nat, 21%nat) /\
   find_td age_edit_17 20 = Some (0%nat, 4%nat, {| td_id := 20; td_content := Holds 21; td_hidden := false |}) /\
   td_content {| td_id := 20; td_content := Holds 21; td_hidden := false |} = Holds 21 /\
   option_map ctl_validator (ctl_get age_edit_17 21) = Some (Some age_validator) /\
   success (run_validator age_edit_17 age_validator) = false) /\
  (complete age_edit_17_editor age_edit_17 =
     pushNotification age_edit_17 "Validation failed" (message (run_validator age_edit_17 age_validator)) ERROR /\
   rows (complete age_edit_17_editor age_edit_17) = rows age_edit_17 /\
   heap (complete age_edit_17_editor age_edit_17) = heap age_edit_17 /\
   _activeEditor (complete age_edit_17_editor age_edit_17) = _activeEditor age_edit_17 /\
   focused (complete age_edit_17_editor age_edit_17) = focused age_edit_17).
Proof.
  split; [vm_compute; reflexivity |].
  split; [repeat split; vm_compute; reflexivity |].
  apply (complete_validation_failure_keeps_editing age_edit_17_editor age_edit_17 20 21 0 4
           {| td_id := 20; td_content := Holds 21; td_hidden := false |} 21 age_validator);
    vm_compute; reflexivity.
Defined.

(** After the rejected value, the same edit can be retried: focusing the
    control again, entering a valid age and pressing Enter commits it. *)
Lemma age_edit_retry :
  let g := run [DblClick (TTd 3); Input "17"; Blur; Focus 21; Input "20"; KeyEnter] sample_grid in
  map n_description (notifications (run [Blur] age_edit_17)) = ["Minimum age is 18"] /\
  in_body (run [Blur] age_edit_17) 21 = true /\
  map (td_text g) (hd [] (rows g)) = ["Airi Satou"; "Accountant"; "Tokyo"; "20"; "$162,700"] /\
  editor_controls g = 0%nat /\ _activeEditor g = None.
Proof. vm_compute. repeat split; reflexivity. Qed.

(** ** Opening an inline editor while another one is open *)

(** C1 (code bug): the double-click handler completes the open editor but
    ignores a rejected completion and opens the new editor anyway: with the
    name "Bo" (shorter than 4) in the first row's editor, a double click on
    the second row's name cell reports the failure and leaves both editor
    controls, 21 and 23, in the body. *)
Theorem dblclick_second_editor_coexists :
  let g := run [DblClick (TTd 0); Input "Bo"; DblClick (TTd 6)] sample_grid in
  editor_controls g = 2%nat /\ in_body g 21 = true /\ in_body g 23 = true /\
  option_map targetElement (_activeEditor g) = Some (Some (22%nat, 23%nat)) /\
  map n_description (notifications g) = ["Minimum name length is 4"; "Minimum name length is 4"].
Proof. vm_compute. repeat split; reflexivity. Qed.

(** ** Double click on a cell without a field configuration *)

(** C2 (code bug): the constructor of [InlineEditor] returns early for the
    sixth column, which has no entry in [FIELDS], but the double-click
    handler still stores the hollow object as the active editor, so the
    table is not idle; the next double click calls [complete] on it, which
    fails on [targetElement.firstChild] and shows an error notification. *)
Theorem dblclick_unmapped_cell_not_idle :
  _activeEditor (run [DblClick (TTd 5)] six_column_grid) = Some hollow_editor /\
  notifications (run [DblClick (TTd 5)] six_column_grid) = [] /\
  notifications (run [DblClick (TTd 5); DblClick (TTd 0)] six_column_grid) =
    [{| n_title := "Error"; n_description := TYPE_ERROR_FIRSTCHILD; n_type := ERROR |}].
Proof. vm_compute. repeat split; reflexivity. Qed.

(** ** Form submission after an inline edit *)

(** C8 (code bug): the inline editor binds the validator object shared with
    the creation form to its own control, and the binding stays after the
    edit ends; the form's name field is then no longer validated, so a form
    with the name "Bo" (which fails the minimum length 4) adds a row, while
    the same form on a fresh table is rejected. *)
Theorem form_short_name_accepted_after_inline_edit :
  let g := run [DblClick (TTd 0); Focus 15; Input "Bo"; Focus 16; Input "Dev";
                Focus 18; Input "30"; Focus 19; Input "1000"; SubmitClick] sample_grid in
  let g' := run [Focus 15; Input "Bo"; Focus 16; Input "Dev";
                 Focus 18; Input "30"; Focus 19; Input "1000"; SubmitClick] sample_grid in
  success (validate (Some (Some "Bo")) (MinStrLenValidator "name" 4)) = false /\
  length (rows g) = 4%nat /\
  map (td_text g) (last (rows g) []) = ["Bo"; "Dev"; "Tokyo"; "30"; "$1,000"] /\
  option_map _field (val_get g name_validator) = Some (Some 21%nat) /\
  length (rows g') = 3%nat /\
  map n_description (notifications g') = ["Minimum name length is 4"].
Proof. vm_compute. repeat split; reflexivity. Qed.

(** ** Further properties of the validators *)

Lemma drop_ws_split (l : list ascii) :
  exists w, l = w ++ drop_ws l /\ forallb is_ws w = true.
Proof.
  induction l as [| c r [w [Hw Hws]]]; [exists []; split; reflexivity |].
  simpl. destruct (is_ws c) eqn:Hc.
  - exists (c :: w). simpl. rewrite Hc, <- Hw. split; [reflexivity | exact Hws].
  - exists []. split; reflexivity.
Qed.

Lemma drop_ws_idem (l : list ascii) : drop_ws (drop_ws l) = drop_ws l.
Proof.
  induction l as [| c r IH]; [reflexivity |].
  simpl. destruct (is_ws c) eqn:Hc; [exact IH | simpl; rewrite Hc; reflexivity].
Qed.

Lemma drop_ws_app_keep (x y : list ascii) :
  drop_ws x = x -> x <> [] -> drop_ws (x ++ y) = x ++ y.
Proof.
  destruct x as [| c x]; [congruence |]. intros H _. simpl in *.
  destruct (is_ws c) eqn:Hc; [| reflexivity].
  exfalso. destruct (drop_ws_split x) as [w [Hw _]].
  assert (Hl : length x = (length w + length (drop_ws x))%nat) by (rewrite Hw at 1; apply length_app).
  rewrite H in Hl. simpl in Hl. lia.
Qed.

Lemma trim_l_idem (l : list ascii) : trim_l (trim_l l) = trim_l l.
Proof.
  unfold trim_l.
  set (m := drop_ws l). set (k := drop_ws (rev m)).
  assert (Hm : drop_ws m = m) by apply drop_ws_idem.
  assert (Hk : drop_ws k = k) by apply drop_ws_idem.
  destruct (drop_ws_split (rev m)) as [w [Hw _]]. fold k in Hw.
  assert (Hmk : m = rev k ++ rev w).
  { rewrite <- (rev_involutive m), Hw, rev_app_distr. reflexivity. }
  assert (Hd : drop_ws (rev k) = rev k).
  { destruct (rev k) as [| c r] eqn:E; [reflexivity |].
    rewrite Hmk in Hm. simpl in Hm. simpl.
    destruct (is_ws c) eqn:Hc; [| reflexivity].
    exfalso. destruct (drop_ws_split (r ++ rev w)) as [w' [Hw' _]].
    assert (Hl : length (r ++ rev w) = (length w' + length (drop_ws (r ++ rev w)))%nat)
      by (rewrite Hw' at 1; apply length_app).
    rewrite Hm in Hl. simpl in Hl. lia. }
  rewrite Hd, rev_involutive, Hk. reflexivity.
Qed.

Lemma trim_idem (s : string) : trim (trim s) = trim s.
Proof.
  unfold trim, chars, str. rewrite list_ascii_of_string_of_list_ascii, trim_l_idem. reflexivity.
Qed.

Lemma assoc_assoc_set_same {A} (k : nat) (v : A) (l : list (nat * A)) :
  assoc k (assoc_set k v l) = Some v.
Proof.
  induction l as [| [k' v'] r IH]; simpl.
  - rewrite Nat.eqb_refl. reflexivity.
  - destruct (Nat.eqb k k') eqn:E; simpl; [rewrite Nat.eqb_refl; reflexivity |].
    rewrite E. exact IH.
Qed.

Lemma assoc_assoc_set_other {A} (k k' : nat) (v : A) (l : list (nat * A)) :
  k' <> k -> assoc k' (assoc_set k v l) = assoc k' l.
Proof.
  intros Hne. assert (Hf : Nat.eqb k' k = false) by (apply Nat.eqb_neq; exact Hne).
  induction l as [| [k0 v0] r IH]; simpl.
  - rewrite Hf. reflexivity.
  - destruct (Nat.eqb k k0) eqn:E; simpl.
    + apply Nat.eqb_eq in E. subst k0. rewrite Hf. reflexivity.
    + destruct (Nat.eqb k' k0); [reflexivity | exact IH].
Qed.

Lemma validate_success (v : option string) (rules : list Rule) :
  success (validate (Some v) rules) =
  forallb r_success (map (rule_result (trim (match v with Some s => s | None => "" end))) rules).
Proof. unfold validate. rewrite fold_validate_step. reflexivity. Qed.

(** A minimum-length validator measures the trimmed value: it succeeds, with
    an empty message, exactly when the trimmed value is non-empty and at
    least [minLenValue] characters long, and otherwise fails with its
    minimum-length message (so an empty value fails even for a minimum 0). *)
Theorem MinStrLen_validate (fieldName : string) (minLenValue : Z) (v : string) :
  validate (Some (Some v)) (MinStrLenValidator fieldName minLenValue) =
  if String.eqb (trim v) "" || (Z.of_nat (String.length (trim v)) <? minLenValue)
  then {| success := false;
          message := "Minimum " ++ fieldName ++ " length is " ++ Z_to_js minLenValue |}
  else {| success := true; message := "" |}.
Proof.
  unfold validate, MinStrLenValidator. cbn [fold_left validate_step rule_func].
  destruct (String.eqb (trim v) "" || (Z.of_nat (String.length (trim v)) <? minLenValue));
    reflexivity.
Qed.

(** A not-empty validator fails, with its message, exactly when the bound
    value is empty or whitespace only (or the field's value is null). *)
Theorem NotEmpty_validate (fieldName : string) (v : option string) :
  validate (Some v) (NotEmptyValidator fieldName) =
  if String.eqb (trim (match v with Some s => s | None => "" end)) ""
  then {| success := false; message := "Field ' " ++ fieldName ++ " should not be empty" |}
  else {| success := true; message := "" |}.
Proof.
  unfold validate, NotEmptyValidator. cbn [fold_left validate_step rule_func].
  rewrite trim_idem.
  destruct (String.eqb (trim (match v with Some s => s | None => "" end)) ""); reflexivity.
Qed.

(** A numeric-range validator succeeds exactly when [Number] of the trimmed
    value is a finite number within the inclusive bounds: NaN and both
    infinities fail, and any syntax [Number] accepts (hexadecimal, exponent,
    a leading plus sign, the empty string as 0) is judged by its value. *)
Theorem NumScope_validate_success (fieldName : string) (minValue maxValue : Z) (v : string) :
  success (validate (Some (Some v)) (NumScopeValidator fieldName minValue maxValue)) = true <->
  exists q, Number (trim v) = Fin q /\ (inject_Z minValue <= q)%Q /\ (q <= inject_Z maxValue)%Q.
Proof.
  rewrite validate_success. unfold rule_result, NumScopeValidator. cbn.
  destruct (Number (trim v)) as [| [] | q]; cbn.
  - split; [discriminate | intros [q [Hq _]]; discriminate].
  - split; [discriminate | intros [q [Hq _]]; discriminate].
  - split; [discriminate | intros [q [Hq _]]; discriminate].
  - destruct (Qle_bool (inject_Z minValue) q) eqn:H1, (Qle_bool q (inject_Z maxValue)) eqn:H2; cbn.
    + split; [intros _ | reflexivity].
      exists q. split; [reflexivity |]. split; apply Qle_bool_iff; assumption.
    + split; [discriminate |].
      intros [q' [Hq [_ Hmax]]]. injection Hq as <-. apply Qle_bool_iff in Hmax. congruence.
    + split; [discriminate |].
      intros [q' [Hq [Hmin _]]]. injection Hq as <-. apply Qle_bool_iff in Hmin. congruence.
    + split; [discriminate |].
      intros [q' [Hq [Hmin _]]]. injection Hq as <-. apply Qle_bool_iff in Hmin. congruence.
Qed.

(** [bindField] rebinds the validator object in place: afterwards its
    [validate] reads the newly bound control, whichever control it was
    bound to before, and every other validator object is unaffected. *)
Theorem bindField_rebinds (g : Grid) (vid field : nat) (v : ValidatorObj) :
  val_get g vid = Some v ->
  run_validator (bindField g vid field) vid =
    validate (Some (option_map ctl_value (ctl_get g field))) (v_rules v) /\
  (forall vid', vid' <> vid -> run_validator (bindField g vid field) vid' = run_validator g vid').
Proof.
  intros Hv. unfold bindField. rewrite Hv. split.
  - unfold run_validator, val_get. cbn [validators with_validators].
    rewrite assoc_assoc_set_same. reflexivity.
  - intros vid' Hne. unfold run_validator, val_get. cbn [validators with_validators].
    rewrite assoc_assoc_set_other by exact Hne. reflexivity.
Qed.

Lemma bindField_rebinds_witness :
  val_get sample_grid name_validator =
    Some {| v_rules := MinStrLenValidator "name" 4; _field := Some 15%nat |} /\
  (run_validator (bindField sample_grid name_validator 16) name_validator =
     validate (Some (option_map ctl_value (ctl_get sample_grid 16)))
              (v_rules {| v_rules := MinStrLenValidator "name" 4; _field := Some 15%nat |}) /\
   (forall vid', vid' <> name_validator ->
      run_validator (bindField sample_grid name_validator 16) vid' = run_validator sample_grid vid')).
Proof.
  split; [reflexivity |].
  apply bindField_rebinds. reflexivity.
Defined.

(** ** Decimal renderings and the parsers that read them back *)

Ltac ascii_cases c := destruct c as [[] [] [] [] [] [] [] []].

Lemma chars_append (s t : string) : chars (s ++ t) = chars s ++ chars t.
Proof. induction s as [| a s IH]; simpl; [reflexivity |]. unfold chars in *. simpl. rewrite IH. reflexivity. Qed.

Lemma chars_str (l : list ascii) : chars (str l) = l.
Proof. apply list_ascii_of_string_of_list_ascii. Qed.


Lemma digit_not_ws c : is_digit c = true -> is_ws c = false.
Proof. ascii_cases c; vm_compute; congruence. Qed.

Lemma digit_not_special c :
  is_digit c = true ->
  is_char 43 c = false /\ is_char 44 c = false /\ is_char 45 c = false /\ is_char 46 c = false /\
  is_char 101 c = false /\ is_char 69 c = false /\ is_char 36 c = false.
Proof. ascii_cases c; vm_compute; intros H; try discriminate H; repeat split. Qed.

Lemma comma_facts c :
  is_char 44 c = true ->
  is_digit c = false /\ is_ws c = false /\ is_char 46 c = false /\ is_char 101 c = false /\
  is_char 69 c = false /\ is_char 45 c = false.
Proof. ascii_cases c; vm_compute; intros H; try discriminate H; repeat split. Qed.

Lemma not_second_radix c :
  is_digit c || is_char 44 c = true ->
  is_char 120 c || is_char 88 c = false /\ is_char 111 c || is_char 79 c = false /\
  is_char 98 c || is_char 66 c = false.
Proof. ascii_cases c; vm_compute; intros H; try discriminate H; repeat split. Qed.

Lemma digit_not_infinity c r : is_digit c = true -> strip_prefix infinity_chars (c :: r) = None.
Proof. ascii_cases c; vm_compute; intros H; try discriminate H; reflexivity. Qed.

Lemma digit_chr (k : Z) : 0 <= k < 10 ->
  is_digit (chr (Z.to_nat (48 + k))) = true /\ code (chr (Z.to_nat (48 + k))) = 48 + k.
Proof.
  intros Hk. assert (E : code (chr (Z.to_nat (48 + k))) = 48 + k).
  { unfold code, chr. rewrite nat_ascii_embedding by lia. lia. }
  split; [| exact E]. unfold is_digit. rewrite E.
  apply andb_true_iff. split; apply Z.leb_le; lia.
Qed.

Lemma digits_value_app_digit (d : list ascii) (c : ascii) :
  digits_value (d ++ [c]) = digits_value d * 10 + (code c - 48).
Proof. unfold digits_value. rewrite fold_left_app. reflexivity. Qed.

Lemma digits_of_pos_spec (f : nat) :
  forall n acc, 0 <= n < 10 ^ Z.of_nat (S f) ->
  exists d, chars (digits_of_pos (S f) n acc) = d ++ chars acc /\ d <> [] /\
            forallb is_digit d = true /\ digits_value d = n.
Proof.
  induction f as [| f IH]; intros n acc Hn; cbn [digits_of_pos].
  - assert (Hlt : n < 10) by (simpl in Hn; lia). rewrite (proj2 (Z.ltb_lt n 10) Hlt).
    destruct (digit_chr (n mod 10)) as [Hd Hc]; [apply Z.mod_pos_bound; lia |].
    exists [chr (Z.to_nat (48 + n mod 10))]. split; [reflexivity |].
    split; [discriminate |]. split; [cbn [forallb]; rewrite Hd; reflexivity |].
    unfold digits_value. cbn [fold_left]. rewrite Hc. rewrite Z.mod_small by lia. lia.
  - destruct (digit_chr (n mod 10)) as [Hd Hc]; [apply Z.mod_pos_bound; lia |].
    destruct (n <? 10) eqn:Hlt.
    + apply Z.ltb_lt in Hlt.
      exists [chr (Z.to_nat (48 + n mod 10))]. split; [reflexivity |].
      split; [discriminate |]. split; [cbn [forallb]; rewrite Hd; reflexivity |].
      unfold digits_value. cbn [fold_left]. rewrite Hc. rewrite Z.mod_small by lia. lia.
    + apply Z.ltb_ge in Hlt.
      destruct (IH (n / 10) (String (chr (Z.to_nat (48 + n mod 10))) acc)) as [d [E [Hne [Hdig Hv]]]].
      { split; [apply Z.div_pos; lia |].
        apply Z.div_lt_upper_bound; [lia |]. rewrite <- Z.pow_succ_r by lia.
        replace (Z.succ (Z.of_nat (S f))) with (Z.of_nat (S (S f))) by lia. lia. }
      exists (d ++ [chr (Z.to_nat (48 + n mod 10))]). split.
      * cbn [digits_of_pos] in E. rewrite E. rewrite <- app_assoc. reflexivity.
      * split; [destruct d; cbn [app]; congruence |].
        split; [rewrite forallb_app, Hdig; cbn [forallb]; rewrite Hd; reflexivity |].
        rewrite digits_value_app_digit, Hv, Hc.
        pose proof (Z.div_mod n 10). lia.
Qed.

(** The characters of [Z_to_js n]: an optional minus sign, then the digits of |n|. *)
Lemma Z_to_js_chars (n : Z) : Z.abs n < 10 ^ 64 ->
  exists d, chars (Z_to_js n) = (if n <? 0 then [chr 45] else []) ++ d /\ d <> [] /\
            forallb is_digit d = true /\ digits_value d = Z.abs n.
Proof.
  intros Hn. unfold Z_to_js.
  destruct (digits_of_pos_spec 63 (Z.abs n) "") as [d [E [Hne [Hd Hv]]]].
  { split; [lia |]. exact Hn. }
  exists d. destruct (n <? 0) eqn:Hneg.
  - apply Z.ltb_lt in Hneg. replace (- n) with (Z.abs n) by lia.
    split; [| tauto].
    change (chars (String (chr 45) (digits_of_pos 64 (Z.abs n) "")))
      with (chr 45 :: chars (digits_of_pos 64 (Z.abs n) "")).
    rewrite E, app_nil_r. reflexivity.
  - apply Z.ltb_ge in Hneg. replace n with (Z.abs n) at 1 by lia.
    split; [| tauto]. rewrite E, app_nil_r. reflexivity.
Qed.

Lemma span_digits_app (d r : list ascii) :
  forallb is_digit d = true ->
  match r with c :: _ => is_digit c = false | [] => True end ->
  span_digits (d ++ r) = (d, r).
Proof.
  intros Hd Hr. induction d as [| c d IH]; simpl.
  - destruct r as [| c r]; [reflexivity |]. simpl. rewrite Hr. reflexivity.
  - simpl in Hd. apply andb_true_iff in Hd. destruct Hd as [Hc Hd].
    rewrite Hc, IH by exact Hd. reflexivity.
Qed.

Lemma drop_ws_no_ws (l : list ascii) :
  match l with c :: _ => is_ws c = false | [] => True end -> drop_ws l = l.
Proof. destruct l as [| c r]; [reflexivity |]. simpl. intros H. rewrite H. reflexivity. Qed.

Lemma trim_l_no_ws (l : list ascii) :
  forallb (fun c => negb (is_ws c)) l = true -> trim_l l = l.
Proof.
  intros H. unfold trim_l.
  assert (Hl : drop_ws l = l).
  { apply drop_ws_no_ws. destruct l as [| c r]; [exact I |].
    simpl in H. destruct (is_ws c); [discriminate | reflexivity]. }
  assert (Hr : drop_ws (rev l) = rev l).
  { apply drop_ws_no_ws. destruct (rev l) as [| c r] eqn:E; [exact I |].
    assert (Hin : In c l) by (apply in_rev; rewrite E; left; reflexivity).
    rewrite forallb_forall in H. specialize (H c Hin).
    destruct (is_ws c); [discriminate | reflexivity]. }
  rewrite Hl, Hr, rev_involutive. reflexivity.
Qed.

(** Reading back a run of digits, optionally followed by a comma and more:
    [parse_decimal] stops at the first comma. *)
Lemma parse_unsigned_digits (d rest : list ascii) :
  d <> [] -> forallb is_digit d = true ->
  match rest with c :: _ => is_char 44 c = true | [] => True end ->
  parse_unsigned (d ++ rest) = Some (Fin (inject_Z (digits_value d)), rest).
Proof.
  intros Hne Hd Hr. unfold parse_unsigned.
  destruct d as [| c d']; [congruence |].
  rewrite span_digits_app by
    (first [exact Hd | destruct rest as [| x r]; [exact I | apply comma_facts in Hr; tauto]]).
  cbn [forallb] in Hd. apply andb_true_iff in Hd as [Hc Hd'].
  change ((c :: d') ++ rest) with (c :: (d' ++ rest)).
  rewrite digit_not_infinity by exact Hc.
  destruct rest as [| x r].
  - cbn. rewrite app_nil_r. unfold scaled. cbn. rewrite Z.mul_1_r. reflexivity.
  - destruct (comma_facts x Hr) as [_ [_ [H46 [H101 [H69 _]]]]].
    cbn [app]. rewrite H46. cbn. rewrite H101, H69. cbn.
    rewrite app_nil_r. unfold scaled. cbn. rewrite Z.mul_1_r. reflexivity.
Qed.

Lemma parse_non_decimal_none (l : list ascii) :
  match l with _ :: c2 :: _ => is_digit c2 || is_char 44 c2 = true | _ => True end ->
  parse_non_decimal l = None.
Proof.
  intros H. destruct l as [| z [| x [| y r]]]; try reflexivity.
  destruct (not_second_radix x H) as [H1 [H2 H3]].
  unfold parse_non_decimal. rewrite H1, H2, H3. destruct (is_char 48 z); reflexivity.
Qed.

Lemma filter_all {A} (p : A -> bool) (l : list A) : forallb p l = true -> filter p l = l.
Proof.
  induction l as [| x l IH]; simpl; [reflexivity |].
  intros H. apply andb_true_iff in H as [Hx Hl]. rewrite Hx, IH by exact Hl. reflexivity.
Qed.

Lemma forallb_digits_imp (p : ascii -> bool) (d : list ascii) :
  (forall c, is_digit c = true -> p c = true) -> forallb is_digit d = true -> forallb p d = true.
Proof.
  intros Hp Hd. rewrite forallb_forall in *. intros c Hc. apply Hp, Hd, Hc.
Qed.




Lemma Z_to_js_nonneg_chars (n : Z) : 0 <= n < 10 ^ 64 ->
  exists d, chars (Z_to_js n) = d /\ d <> [] /\ forallb is_digit d = true /\ digits_value d = n.
Proof.
  intros Hn. destruct (Z_to_js_chars n) as [d [E [Hne [Hd Hv]]]]; [lia |].
  exists d. rewrite (proj2 (Z.ltb_ge n 0)) in E by lia. repeat split; try assumption. lia.
Qed.

Lemma pad3_digits (m : Z) : 0 <= m < 1000 -> forallb is_digit (chars (pad3 m)) = true.
Proof.
  intros Hm. destruct (Z_to_js_nonneg_chars m) as [d [E [_ [Hd _]]]]; [lia |].
  unfold pad3. destruct (m <? 10), (m <? 100);
    rewrite ?chars_append, E; rewrite ?forallb_app, Hd; reflexivity.
Qed.

(** [group3 f n]: the leading group of at most three digits, then nothing
    or a comma followed by further digits and commas. *)
Lemma group3_chars (f : nat) :
  forall n, 0 <= n < 1000 ^ Z.of_nat (S f) ->
  exists d rest k, chars (group3 f n) = d ++ rest /\ d <> [] /\ forallb is_digit d = true /\
    digits_value d = n / 1000 ^ k /\ n / 1000 ^ k < 1000 /\ 0 <= k /\ (k = 0 \/ 1000 ^ k <= n) /\
    forallb (fun c => is_digit c || is_char 44 c) rest = true /\
    match rest with [] => n < 1000 | c :: _ => is_char 44 c = true end.
Proof.
  assert (Small : forall n, 0 <= n < 1000 ->
    exists d rest k, chars (Z_to_js n) = d ++ rest /\ d <> [] /\ forallb is_digit d = true /\
      digits_value d = n / 1000 ^ k /\ n / 1000 ^ k < 1000 /\ 0 <= k /\ (k = 0 \/ 1000 ^ k <= n) /\
      forallb (fun c => is_digit c || is_char 44 c) rest = true /\
      match rest with [] => n < 1000 | c :: _ => is_char 44 c = true end).
  { intros n Hn. destruct (Z_to_js_nonneg_chars n) as [d [E [Hne [Hd Hv]]]]; [lia |].
    exists d, [], 0. rewrite app_nil_r, Z.pow_0_r, Z.div_1_r. repeat split; try assumption; lia. }
  induction f as [| f IH]; intros n Hn; cbn [group3].
  - apply Small. simpl in Hn. lia.
  - destruct (n <? 1000) eqn:Hlt; [apply Small; apply Z.ltb_lt in Hlt; lia |].
    apply Z.ltb_ge in Hlt.
    destruct (IH (n / 1000)) as [d [rest [k [E [Hne [Hd [Hv [Hk1000 [Hk0 [Hkmin [Hrest Hhead]]]]]]]]]]].
    { split; [apply Z.div_pos; lia |]. apply Z.div_lt_upper_bound; [lia |].
      rewrite <- Z.pow_succ_r by lia. replace (Z.succ (Z.of_nat (S f))) with (Z.of_nat (S (S f))) by lia. lia. }
    assert (Hdd : n / 1000 / 1000 ^ k = n / 1000 ^ (k + 1)).
    { rewrite Z.div_div by (try apply Z.pow_pos_nonneg; lia).
      rewrite Z.pow_add_r, Z.pow_1_r by lia. f_equal. ring. }
    exists d, (rest ++ chr 44 :: chars (pad3 (n mod 1000))), (k + 1).
    rewrite !chars_append, E, <- app_assoc. split; [reflexivity |].
    split; [exact Hne |]. split; [exact Hd |].
    split; [rewrite Hv; exact Hdd |]. split; [rewrite <- Hdd; exact Hk1000 |].
    split; [lia |]. split.
    { right. rewrite Z.pow_add_r, Z.pow_1_r by lia.
      pose proof (Z.mul_div_le n 1000). destruct Hkmin as [-> | Hkmin]; [lia | nia]. }
    split.
    { rewrite forallb_app, Hrest. cbn [forallb]. replace (is_digit (chr 44) || is_char 44 (chr 44)) with true by reflexivity.
      cbn [andb]. apply (forallb_digits_imp (fun c => is_digit c || is_char 44 c));
        [intros x Hx; rewrite Hx; reflexivity |].
      apply pad3_digits. apply Z.mod_pos_bound. lia. }
    destruct rest as [| x r]; [reflexivity | exact Hhead].
Qed.

Lemma bound_1000_65 : 10 ^ 64 < 1000 ^ Z.of_nat 65.
Proof. vm_compute. reflexivity. Qed.

Lemma leading_group_small (n k : Z) : 0 <= k -> (k = 0 \/ 1000 ^ k <= n) -> n < 1000 -> n / 1000 ^ k = n.
Proof.
  intros Hk [-> | Hle] Hn; [rewrite Z.pow_0_r, Z.div_1_r; reflexivity |].
  destruct (Z.eq_dec k 0) as [-> | Hk0]; [rewrite Z.pow_0_r, Z.div_1_r; reflexivity |].
  pose proof (Z.pow_le_mono_r 1000 1 k ltac:(lia) ltac:(lia)). rewrite Z.pow_1_r in H. lia.
Qed.

Lemma round_half_expand_int (z : Z) : round_half_expand (inject_Z z) = z.
Proof.
  unfold round_half_expand, inject_Z. cbn [Qnum Qden].
  destruct (0 <=? z) eqn:H; [apply Z.leb_le in H | apply Z.leb_gt in H];
    Z.div_mod_to_equations; lia.
Qed.

Lemma forallb_imp (p q : ascii -> bool) (l : list ascii) :
  (forall c, p c = true -> q c = true) -> forallb p l = true -> forallb q l = true.
Proof. intros Hpq Hp. rewrite forallb_forall in *. intros c Hc. apply Hpq, Hp, Hc. Qed.

Lemma filter_none {A} (p : A -> bool) (l : list A) :
  forallb (fun x => negb (p x)) l = true -> filter p l = [].
Proof.
  induction l as [| x l IH]; simpl; [reflexivity |].
  intros H. apply andb_true_iff in H as [Hx Hl]. destruct (p x); [discriminate | apply IH, Hl].
Qed.

(** The characters of [intl_usd n]: an optional minus sign, the dollar
    sign, then the grouped digits of |n|. *)
Lemma intl_usd_chars (n : Z) : Z.abs n < 10 ^ 64 ->
  exists d rest k,
    chars (intl_usd n) = (if n <? 0 then [chr 45] else []) ++ chr 36 :: d ++ rest /\
    d <> [] /\ forallb is_digit d = true /\
    digits_value d = Z.abs n / 1000 ^ k /\ Z.abs n / 1000 ^ k < 1000 /\ 0 <= k /\
    (k = 0 \/ 1000 ^ k <= Z.abs n) /\
    forallb (fun c => is_digit c || is_char 44 c) rest = true /\
    match rest with [] => Z.abs n < 1000 | c :: _ => is_char 44 c = true end.
Proof.
  intros Hn. pose proof bound_1000_65 as B.
  assert (Hm : Z.abs n = if n <? 0 then - n else n)
    by (destruct (n <? 0) eqn:H; [apply Z.ltb_lt in H | apply Z.ltb_ge in H]; lia).
  destruct (group3_chars 64 (Z.abs n)) as [d [rest [k [E Hrest]]]]; [lia |].
  exists d, rest, k. unfold intl_usd. destruct (n <? 0); rewrite Hm in E;
    rewrite chars_append, E; split; [reflexivity | exact Hrest | reflexivity | exact Hrest].
Qed.

Lemma parse_decimal_grouped (b : bool) (d rest : list ascii) :
  d <> [] -> forallb is_digit d = true ->
  match rest with c :: _ => is_char 44 c = true | [] => True end ->
  parse_decimal ((if b then [chr 45] else []) ++ d ++ rest) =
    Some (if b then Fin (- inject_Z (digits_value d))%Q else Fin (inject_Z (digits_value d)), rest).
Proof.
  intros Hne Hd Hr. pose proof (parse_unsigned_digits d rest Hne Hd Hr) as P.
  destruct b.
  - cbn [app parse_decimal]. replace (is_char 45 (chr 45)) with true by reflexivity.
    rewrite P. reflexivity.
  - destruct d as [| c d']; [congruence |].
    assert (Hc : is_digit c = true) by (cbn [forallb] in Hd; apply andb_true_iff in Hd; tauto).
    destruct (digit_not_special c Hc) as [H43 [_ [H45 _]]].
    cbn [app parse_decimal]. rewrite H45, H43.
    change (c :: d' ++ rest) with ((c :: d') ++ rest). rewrite P. reflexivity.
Qed.

Lemma second_char (q : ascii -> bool) (b : bool) (l : list ascii) :
  forallb q l = true ->
  match (if b then [chr 45] else []) ++ l with _ :: c2 :: _ => q c2 = true | _ => True end.
Proof.
  intros H. destruct b, l as [| x [| y r]]; cbn [app]; try exact I;
    cbn [forallb] in H; repeat (apply andb_true_iff in H as [? H]); assumption.
Qed.

Lemma Number_nonempty (l : list ascii) :
  l <> [] -> trim_l l = l ->
  Number (str l) = match parse_non_decimal l with
                   | Some z => Fin (inject_Z z)
                   | None => match parse_decimal l with Some (n, []) => n | _ => NaN end
                   end.
Proof. intros Hne Ht. unfold Number. rewrite chars_str, Ht. destruct l; [congruence | reflexivity]. Qed.

(** What the salary comparator reads from a cell holding [intl_usd n]. *)
Lemma salary_read_intl_usd (n : Z) : Z.abs n < 10 ^ 64 ->
  exists k, 0 <= k /\ (k = 0 \/ 1000 ^ k <= Z.abs n) /\ Z.abs n / 1000 ^ k < 1000 /\
    parseFloat (keep_digits_dots_commas (intl_usd n)) = Fin (inject_Z (Z.abs n / 1000 ^ k)).
Proof.
  intros Hn.
  destruct (intl_usd_chars n Hn) as [d [rest [k [E [Hne [Hd [Hv [Hlt [Hk0 [Hkmin [Hrest Hhead]]]]]]]]]]].
  exists k. split; [exact Hk0 |]. split; [exact Hkmin |]. split; [exact Hlt |].
  unfold keep_digits_dots_commas. rewrite E, filter_app.
  replace (filter (fun c => is_digit c || is_char 46 c || is_char 44 c) (if n <? 0 then [chr 45] else []))
    with (@nil ascii) by (destruct (n <? 0); reflexivity).
  cbn [app filter].
  replace (is_digit (chr 36) || is_char 46 (chr 36) || is_char 44 (chr 36)) with false by reflexivity.
  rewrite filter_all.
  2: { rewrite forallb_app. apply andb_true_iff. split.
       - apply (forallb_imp is_digit); [intros c Hc; rewrite Hc; reflexivity | exact Hd].
       - apply (forallb_imp (fun c => is_digit c || is_char 44 c)); [| exact Hrest].
         intros c Hc. apply orb_true_iff in Hc as [Hc | Hc]; rewrite Hc, ?orb_true_r; reflexivity. }
  unfold parseFloat. rewrite chars_str.
  destruct d as [| c d']; [congruence |].
  assert (Hc : is_digit c = true) by (cbn [forallb] in Hd; apply andb_true_iff in Hd; tauto).
  rewrite drop_ws_no_ws by exact (digit_not_ws c Hc).
  pose proof (parse_decimal_grouped false (c :: d') rest Hne Hd
                ltac:(destruct rest; [exact I | exact Hhead])) as P.
  cbn [app] in P. cbn [app]. rewrite P, Hv. reflexivity.
Qed.

(** The salary comparator of [ourComparators] applied to two rendered
    amounts: [parseFloat] stops at the first thousands separator, so each
    amount counts only for its leading digit group (|n| divided by the
    largest power of 1000 not above it), and the sign is dropped. *)
Theorem salary_comparator_intl_usd (a b s : Z) :
  Z.abs a < 10 ^ 64 -> Z.abs b < 10 ^ 64 ->
  exists ka kb,
    0 <= ka /\ (ka = 0 \/ 1000 ^ ka <= Z.abs a) /\ Z.abs a / 1000 ^ ka < 1000 /\
    0 <= kb /\ (kb = 0 \/ 1000 ^ kb <= Z.abs b) /\ Z.abs b / 1000 ^ kb < 1000 /\
    sign (salary_comparator (intl_usd a) (intl_usd b) s) =
      Z.sgn (Z.abs a / 1000 ^ ka - Z.abs b / 1000 ^ kb) * Z.sgn s.
Proof.
  intros Ha Hb.
  destruct (salary_read_intl_usd a Ha) as [ka [Hka0 [Hkamin [Hkalt Pa]]]].
  destruct (salary_read_intl_usd b Hb) as [kb [Hkb0 [Hkbmin [Hkblt Pb]]]].
  exists ka, kb. repeat (split; [assumption |]).
  unfold salary_comparator. rewrite Pa, Pb. cbn [sub add neg mul_int sign]. unfold qsign.
  set (x := Z.abs a / 1000 ^ ka). set (y := Z.abs b / 1000 ^ kb).
  change (Qnum ((inject_Z x + - inject_Z y) * inject_Z s)%Q) with ((x * 1 + - y * 1) * s).
  rewrite Z.sgn_mul. f_equal. f_equal. ring.
Qed.

Lemma salary_comparator_intl_usd_witness :
  (Z.abs 1200000 < 10 ^ 64 /\ Z.abs 86000 < 10 ^ 64) /\
  exists ka kb,
    0 <= ka /\ (ka = 0 \/ 1000 ^ ka <= Z.abs 1200000) /\ Z.abs 1200000 / 1000 ^ ka < 1000 /\
    0 <= kb /\ (kb = 0 \/ 1000 ^ kb <= Z.abs 86000) /\ Z.abs 86000 / 1000 ^ kb < 1000 /\
    sign (salary_comparator (intl_usd 1200000) (intl_usd 86000) 1) =
      Z.sgn (Z.abs 1200000 / 1000 ^ ka - Z.abs 86000 / 1000 ^ kb) * Z.sgn 1.
Proof.
  split; [split; reflexivity |].
  apply salary_comparator_intl_usd; reflexivity.
Defined.

(** [MoneyAmountFormatter.format] leaves its own output unchanged: an
    amount below $1,000 is parsed and rendered again identically, and a
    larger one contains a comma, so [Number] gives NaN and the value is
    returned as it is. *)
Theorem MoneyAmountFormatter_format_intl_usd (n : Z) :
  Z.abs n < 10 ^ 64 -> MoneyAmountFormatter_format (intl_usd n) = intl_usd n.
Proof.
  intros Hn.
  destruct (intl_usd_chars n Hn) as [d [rest [k [E [Hne [Hd [Hv [Hlt [Hk0 [Hkmin [Hrest Hhead]]]]]]]]]]].
  unfold MoneyAmountFormatter_format.
  assert (Ne : String.eqb (intl_usd n) "" = false).
  { apply Bool.not_true_iff_false. intros Heq. apply String.eqb_eq in Heq.
    rewrite Heq in E. destruct (n <? 0); discriminate E. }
  rewrite Ne.
  assert (Hdr : forallb (fun c => is_digit c || is_char 44 c) (d ++ rest) = true).
  { rewrite forallb_app, Hrest, andb_true_r.
    apply (forallb_imp is_digit); [intros c Hc; rewrite Hc; reflexivity | exact Hd]. }
  assert (F : filter (fun c => is_digit c || is_char 44 c || is_char 46 c || is_char 45 c)
                (chars (intl_usd n)) = (if n <? 0 then [chr 45] else []) ++ d ++ rest).
  { rewrite E, filter_app.
    replace (filter (fun c => is_digit c || is_char 44 c || is_char 46 c || is_char 45 c)
               (if n <? 0 then [chr 45] else []))
      with (if n <? 0 then [chr 45] else []) by (destruct (n <? 0); reflexivity).
    f_equal. cbn [filter].
    replace (is_digit (chr 36) || is_char 44 (chr 36) || is_char 46 (chr 36) || is_char 45 (chr 36))
      with false by reflexivity.
    apply filter_all. apply (forallb_imp (fun c => is_digit c || is_char 44 c)); [| exact Hdr].
    intros c Hc. rewrite Hc. reflexivity. }
  rewrite F.
  rewrite Number_nonempty.
  3: { apply trim_l_no_ws. rewrite forallb_app. apply andb_true_iff. split.
       - destruct (n <? 0); reflexivity.
       - apply (forallb_imp (fun c => is_digit c || is_char 44 c)); [| exact Hdr].
         intros c Hc. apply orb_true_iff in Hc as [Hc | Hc].
         + rewrite (digit_not_ws c Hc). reflexivity.
         + destruct (comma_facts c Hc) as [_ [Hw _]]. rewrite Hw. reflexivity. }
  2: { destruct (n <? 0), d; cbn [app]; congruence. }
  rewrite parse_non_decimal_none by exact (second_char _ (n <? 0) _ Hdr).
  rewrite parse_decimal_grouped by first [assumption | destruct rest; [exact I | exact Hhead]].
  destruct rest as [| r0 rr]; [| destruct (n <? 0); reflexivity].
  rewrite Hv, (leading_group_small (Z.abs n) k Hk0 Hkmin Hhead).
  destruct (n <? 0) eqn:Hneg.
  - apply Z.ltb_lt in Hneg.
    change (- inject_Z (Z.abs n))%Q with (inject_Z (- Z.abs n)).
    rewrite round_half_expand_int. f_equal. lia.
  - apply Z.ltb_ge in Hneg. rewrite round_half_expand_int. f_equal. lia.
Qed.

Lemma MoneyAmountFormatter_format_intl_usd_witness :
  Z.abs 1234567 < 10 ^ 64 /\ MoneyAmountFormatter_format (intl_usd 1234567) = intl_usd 1234567.
Proof.
  split; [reflexivity |].
  apply MoneyAmountFormatter_format_intl_usd; reflexivity.
Defined.

(** A non-empty value without any digit, comma, dot or minus sign is
    cleaned to the empty string, which [Number] reads as 0: it is
    formatted as "$0" rather than returned unchanged. *)
Theorem MoneyAmountFormatter_format_no_number_chars (v : string) :
  v <> "" ->
  forallb (fun c => negb (is_digit c || is_char 44 c || is_char 46 c || is_char 45 c)) (chars v) = true ->
  MoneyAmountFormatter_format v = "$0".
Proof.
  intros Hne Hc. unfold MoneyAmountFormatter_format.
  rewrite (proj2 (String.eqb_neq v "") Hne), filter_none by exact Hc. reflexivity.
Qed.

Lemma MoneyAmountFormatter_format_no_number_chars_witness :
  ("abc" <> "" /\
   forallb (fun c => negb (is_digit c || is_char 44 c || is_char 46 c || is_char 45 c)) (chars "abc") = true) /\
  MoneyAmountFormatter_format "abc" = "$0".
Proof.
  split; [split; [discriminate | vm_compute; reflexivity] |].
  apply MoneyAmountFormatter_format_no_number_chars; [discriminate | vm_compute; reflexivity].
Defined.

(** ** Algebra of the default comparator *)

Lemma compare_folded_antisym (a b : list ascii) : compare_folded a b = - compare_folded b a.
Proof.
  revert b. induction a as [| x a IH]; intros [| y b]; try reflexivity.
  cbn [compare_folded]. rewrite (Z.compare_antisym (fold_case x) (fold_case y)).
  destruct (fold_case x ?= fold_case y); cbn [CompOpp]; [apply IH | reflexivity | reflexivity].
Qed.

Lemma sgn_antisym (x y s : Z) : x + y = 0 -> Z.sgn (x * s) = - Z.sgn (y * s).
Proof. intros H. replace y with (- x) by lia. rewrite Z.mul_opp_l, Z.sgn_opp. ring. Qed.

(** Swapping the two cells negates the sign of the comparison. *)
Theorem defaultComparator_antisym (a b : string) (s : Z) :
  sign (_defaultComparator a b s) = - sign (_defaultComparator b a s).
Proof.
  unfold _defaultComparator.
  destruct (String.eqb (trim a) "") eqn:Ea, (String.eqb (trim b) "") eqn:Eb; cbn [andb].
  - reflexivity.
  - unfold sign, qsign. cbn [Qnum inject_Z]. rewrite Z.sgn_opp. ring.
  - unfold sign, qsign. cbn [Qnum inject_Z]. rewrite Z.sgn_opp. ring.
  - destruct (parseFloat (strip_ws_commas (trim a))) as [| sa | qa],
             (parseFloat (strip_ws_commas (trim b))) as [| sb | qb],
             (match_signed_decimal (trim a)), (match_signed_decimal (trim b));
      cbn [is_finite andb sub add neg mul_int]; unfold sign, qsign;
      cbn [Qnum Qplus Qmult Qopp inject_Z];
      repeat match goal with q : Q |- _ => destruct q as [qn qd] end; simpl;
      apply sgn_antisym;
      first [ring | unfold localeCompare; rewrite (compare_folded_antisym (chars (trim a))); ring].
Qed.

(** Reversing the sort direction negates the sign of every comparison. *)
Theorem defaultComparator_direction (a b : string) (s : Z) :
  sign (_defaultComparator a b (- s)) = - sign (_defaultComparator a b s).
Proof.
  unfold _defaultComparator.
  destruct (String.eqb (trim a) "") eqn:Ea, (String.eqb (trim b) "") eqn:Eb; cbn [andb].
  - reflexivity.
  - unfold sign, qsign. cbn [Qnum inject_Z]. rewrite !Z.sgn_opp. reflexivity.
  - unfold sign, qsign. cbn [Qnum inject_Z]. rewrite Z.sgn_opp. reflexivity.
  - destruct (parseFloat (strip_ws_commas (trim a))) as [| sa | qa],
             (parseFloat (strip_ws_commas (trim b))) as [| sb | qb],
             (match_signed_decimal (trim a)), (match_signed_decimal (trim b));
      cbn [is_finite andb sub add neg mul_int]; unfold sign, qsign;
      cbn [Qnum Qplus Qmult Qopp inject_Z]; rewrite Z.mul_opp_r, Z.sgn_opp; reflexivity.
Qed.

(** The comparator is not transitive: in ascending order "9" comes before
    "10" (numeric), "10" before "1a" and "1a" before "9" (both by
    [localeCompare]). *)
Theorem defaultComparator_not_transitive :
  ~ (forall a b c, sign (_defaultComparator a b 1) < 0 -> sign (_defaultComparator b c 1) < 0 ->
                   sign (_defaultComparator a c 1) < 0).
Proof.
  intros H.
  assert (H1 : sign (_defaultComparator "9" "10" 1) = -1) by (vm_compute; reflexivity).
  assert (H2 : sign (_defaultComparator "10" "1a" 1) = -1) by (vm_compute; reflexivity).
  assert (H3 : sign (_defaultComparator "1a" "9" 1) = -1) by (vm_compute; reflexivity).
  assert (H4 : sign (_defaultComparator "9" "1a" 1) = 1) by (vm_compute; reflexivity).
  specialize (H "9" "10" "1a"). rewrite H1, H2, H4 in H. lia.
Qed.

(** ** Sorting the rows *)

Lemma insert_by_perm {A} (cmp : A -> A -> Z) (x : A) (l : list A) :
  Permutation (insert_by cmp x l) (x :: l).
Proof.
  induction l as [| y r IH]; simpl; [reflexivity |].
  destruct (cmp x y <? 0); [reflexivity |].
  eapply perm_trans; [apply perm_skip, IH | apply perm_swap].
Qed.

Lemma sort_by_fold_perm {A} (cmp : A -> A -> Z) (l acc : list A) :
  Permutation (fold_left (fun acc x => insert_by cmp x acc) l acc) (l ++ acc).
Proof.
  revert acc. induction l as [| x l IH]; intros acc; simpl; [reflexivity |].
  eapply perm_trans; [apply IH |].
  eapply perm_trans; [apply Permutation_app_head, insert_by_perm |].
  apply Permutation_sym, Permutation_middle.
Qed.

Lemma sort_by_perm {A} (cmp : A -> A -> Z) (l : list A) : Permutation (sort_by cmp l) l.
Proof. pose proof (sort_by_fold_perm cmp l []) as H. rewrite app_nil_r in H. exact H. Qed.

Lemma insert_by_nonneg {A} (cmp : A -> A -> Z) (x : A) (l : list A) :
  (forall a b, 0 <= cmp a b) -> insert_by cmp x l = l ++ [x].
Proof.
  intros H. induction l as [| y r IH]; simpl; [reflexivity |].
  rewrite (proj2 (Z.ltb_ge (cmp x y) 0) (H x y)), IH. reflexivity.
Qed.

Lemma sort_by_nonneg {A} (cmp : A -> A -> Z) (l : list A) :
  (forall a b, 0 <= cmp a b) -> sort_by cmp l = l.
Proof.
  intros H. unfold sort_by. change l with ([] ++ l) at 2. generalize (@nil A) as acc.
  induction l as [| x l IH]; intros acc; simpl; [symmetry; apply app_nil_r |].
  rewrite insert_by_nonneg by exact H. rewrite IH, <- app_assoc. reflexivity.
Qed.

Lemma defaultComparator_sign_zero (a b : string) : sign (_defaultComparator a b 0) = 0.
Proof.
  unfold _defaultComparator.
  destruct (String.eqb (trim a) "") eqn:Ea, (String.eqb (trim b) "") eqn:Eb; cbn [andb];
    try reflexivity.
  destruct (parseFloat (strip_ws_commas (trim a))) as [| sa | qa],
           (parseFloat (strip_ws_commas (trim b))) as [| sb | qb],
           (match_signed_decimal (trim a)), (match_signed_decimal (trim b));
    cbn [is_finite andb sub add neg mul_int]; unfold sign, qsign;
    cbn [Qnum Qplus Qmult Qopp inject_Z]; rewrite Z.mul_0_r; reflexivity.
Qed.

Lemma defaultComparator_empty (s : Z) : _defaultComparator "" "" s = Fin 0%Q.
Proof. reflexivity. Qed.

(** [_sortByColumn] only reorders the rows of the body: no row is added,
    dropped or changed, and the form controls, validators,
    notifications, open editor and sorter state are left as they were. *)
Theorem sortByColumn_permutes (c : option Z) (g : Grid) :
  Permutation (rows (_sortByColumn c g)) (rows g) /\
  heap (_sortByColumn c g) = heap g /\ validators (_sortByColumn c g) = validators g /\
  notifications (_sortByColumn c g) = notifications g /\
  _activeEditor (_sortByColumn c g) = _activeEditor g /\
  COLUMN_INDEX (_sortByColumn c g) = COLUMN_INDEX g /\ SORT (_sortByColumn c g) = SORT g.
Proof.
  split; [apply sort_by_perm |]. repeat split.
Qed.

Lemma sort_keeps_order_aux (c : Z) (g : Grid) :
  SORT g = STATE_NONE \/ c < 0 ->
  comparator_at (_customComparators g) c = None ->
  rows (_sortByColumn (Some c) g) = rows g.
Proof.
  intros Hs Hc. unfold _sortByColumn. cbn [rows with_rows with_headers _customComparators SORT].
  rewrite Hc. apply sort_by_nonneg. intros ra rb. cbv beta iota.
  destruct Hs as [Hs | Hneg].
  - rewrite Hs. unfold STATE_NONE. rewrite defaultComparator_sign_zero. lia.
  - unfold _extractCellValue. rewrite (proj2 (Z.ltb_lt c 0) Hneg), defaultComparator_empty.
    cbn. lia.
Qed.

(** Without a sort direction ([SORT] is [STATE.NONE], as before the first
    header click), or for a negative column index (every cell value is
    then ""), the default comparator returns 0 for every pair and the
    rows keep their order. *)
Theorem sortByColumn_keeps_order (c : Z) (g : Grid) :
  SORT g = STATE_NONE \/ c < 0 ->
  comparator_at (_customComparators g) c = None ->
  rows (_sortByColumn (Some c) g) = rows g.
Proof. exact (sort_keeps_order_aux c g). Qed.

Lemma sortByColumn_keeps_order_witness :
  (SORT sample_grid = STATE_NONE \/ 3 < 0) /\ comparator_at (_customComparators sample_grid) 3 = None /\
  rows (_sortByColumn (Some 3) sample_grid) = rows sample_grid.
Proof.
  split; [left; reflexivity |]. split; [reflexivity |].
  apply sortByColumn_keeps_order; [left; reflexivity | reflexivity].
Defined.

(** ** Validating and saving the creation form *)

Lemma grid_notifications_eta (g : Grid) : g = with_notifications g (notifications g).
Proof. destruct g; reflexivity. Qed.

Lemma validate_fold (g : Grid) : forall fields ok ns,
  fold_left validate_field fields (ok, with_notifications g ns) =
  (ok && forallb (field_passes g) fields, with_notifications g (ns ++ flat_map (field_notes g) fields)).
Proof.
  induction fields as [| id fields IH]; intros ok ns; cbn [fold_left forallb flat_map].
  - rewrite andb_true_r, app_nil_r. reflexivity.
  - assert (Step : validate_field (ok, with_notifications g ns) id =
                   (ok && field_passes g id, with_notifications g (ns ++ field_notes g id))).
    { unfold validate_field.
      change (ctl_get (with_notifications g ns) id) with (ctl_get g id).
      change (run_validator (with_notifications g ns)) with (run_validator g).
      unfold field_passes, field_notes, field_outcome.
      destruct (option_map ctl_validator (ctl_get g id)) as [[vid |] |]; cbv zeta.
      - destruct (success (run_validator g vid)); [rewrite app_nil_r |]; reflexivity.
      - rewrite andb_true_r, app_nil_r. reflexivity.
      - rewrite andb_true_r, app_nil_r. reflexivity. }
    rewrite Step, IH, andb_assoc, app_assoc. reflexivity.
Qed.

Lemma validateEmployee_eq (fields : list nat) (g : Grid) :
  validateEmployee fields g =
  (forallb (field_passes g) fields,
   with_notifications g (notifications g ++ flat_map (field_notes g) fields ++
     (if forallb (field_passes g) fields
      then [{| n_title := "Success"; n_description := "New row was successfully added."; n_type := SUCCESS |}]
      else []))).
Proof.
  unfold validateEmployee.
  pose proof (validate_fold g fields true (notifications g)) as F.
  rewrite <- grid_notifications_eta in F. rewrite F. cbn [andb].
  destruct (forallb (field_passes g) fields).
  - unfold pushNotification.
    change (notifications (with_notifications g (notifications g ++ flat_map (field_notes g) fields)))
      with (notifications g ++ flat_map (field_notes g) fields).
    rewrite <- app_assoc. reflexivity.
  - rewrite app_nil_r. reflexivity.
Qed.

(** [validateEmployee] checks every field, without stopping at the first
    failure: it succeeds exactly when every field with a validator passes,
    adds one "Validation failed" notification per failing field in field
    order, then the "Success" notification when all pass, and changes
    nothing else. *)
Theorem validateEmployee_outcome (fields : list nat) (g : Grid) :
  validateEmployee fields g =
  (forallb (field_passes g) fields,
   with_notifications g (notifications g ++ flat_map (field_notes g) fields ++
     (if forallb (field_passes g) fields
      then [{| n_title := "Success"; n_description := "New row was successfully added."; n_type := SUCCESS |}]
      else []))).
Proof. exact (validateEmployee_eq fields g). Qed.

Lemma form_reset_rows (g : Grid) : rows (form_reset g) = rows g.
Proof.
  unfold form_reset. generalize (form_fields g) as l. intros l. revert g.
  induction l as [| id l IH]; intros g; cbn [fold_left]; [reflexivity |].
  rewrite IH. unfold ctl_update. destruct (ctl_get g id); reflexivity.
Qed.

Lemma sortByColumn_length (c : option Z) (g : Grid) :
  length (rows (_sortByColumn c g)) = length (rows g).
Proof. apply Permutation_length, sort_by_perm. Qed.

(** Saving the form adds exactly one row when every field passes its
    validator and leaves the body unchanged otherwise. *)
Theorem saveEmployee_row_count (g : Grid) :
  length (rows (_saveEmployee g)) =
  (length (rows g) + if forallb (field_passes g) (form_fields g) then 1 else 0)%nat.
Proof.
  unfold _saveEmployee. rewrite validateEmployee_eq.
  destruct (forallb (field_passes g) (form_fields g)); cbv beta iota zeta.
  - unfold _buildEmployeeRow. cbv beta iota zeta.
    rewrite form_reset_rows, sortByColumn_length.
    cbn [rows with_rows with_next_id with_notifications]. rewrite length_app. reflexivity.
  - cbn [rows with_notifications]. lia.
Qed.

(** Before the first header click ([COLUMN_INDEX] is -1) the re-sort after
    a save keeps the order, so the new row is appended at the bottom. *)
Theorem saveEmployee_appends_unsorted (g : Grid) :
  COLUMN_INDEX g = -1 ->
  comparator_at (_customComparators g) (-1) = None ->
  forallb (field_passes g) (form_fields g) = true ->
  rows (_saveEmployee g) = rows g ++ [fst (_buildEmployeeRow (form_fields g) g)].
Proof.
  intros Hc Hcmp Hok. unfold _saveEmployee. rewrite validateEmployee_eq, Hok. cbv beta iota zeta.
  unfold _buildEmployeeRow at 1. cbv beta iota zeta.
  rewrite form_reset_rows, sort_keeps_order_aux.
  - reflexivity.
  - right. cbn [COLUMN_INDEX with_rows with_next_id with_notifications]. lia.
  - cbn [COLUMN_INDEX _customComparators with_rows with_next_id with_notifications]. rewrite Hc. exact Hcmp.
Qed.

Lemma saveEmployee_appends_unsorted_witness :
  (COLUMN_INDEX sample_form_filled = -1 /\
   comparator_at (_customComparators sample_form_filled) (-1) = None /\
   forallb (field_passes sample_form_filled) (form_fields sample_form_filled) = true) /\
  rows (_saveEmployee sample_form_filled) =
    rows sample_form_filled ++ [fst (_buildEmployeeRow (form_fields sample_form_filled) sample_form_filled)].
Proof.
  split; [split; [reflexivity | split; [reflexivity | vm_compute; reflexivity]] |].
  apply saveEmployee_appends_unsorted; [reflexivity | reflexivity | vm_compute; reflexivity].
Defined.

Lemma ctl_get_ctl_update (g : Grid) (a id : nat) (f : Control -> Control) :
  ctl_get (ctl_update g a f) id = if Nat.eqb id a then option_map f (ctl_get g id) else ctl_get g id.
Proof.
  unfold ctl_update. destruct (Nat.eqb_spec id a) as [-> | N].
  - destruct (ctl_get g a) as [c |] eqn:E; [| exact E].
    unfold ctl_put, ctl_get. cbn [heap with_heap]. apply assoc_assoc_set_same.
  - destruct (ctl_get g a) as [c |]; [| reflexivity].
    unfold ctl_put, ctl_get. cbn [heap with_heap]. apply assoc_assoc_set_other. exact N.
Qed.

Lemma form_reset_fold (l : list nat) : forall (g : Grid) (id : nat),
  ctl_get (fold_left (fun g id => ctl_update g id (fun c => set_ctl_value c (reset_value (ctl_kind c)))) l g) id =
  if existsb (Nat.eqb id) l then option_map (fun c => set_ctl_value c (reset_value (ctl_kind c))) (ctl_get g id) else ctl_get g id.
Proof.
  induction l as [| a l IH]; intros g id; cbn [fold_left existsb]; [reflexivity |].
  rewrite IH, ctl_get_ctl_update.
  destruct (Nat.eqb id a); cbn [orb]; [| reflexivity].
  destruct (existsb (Nat.eqb id) l); [| reflexivity].
  destruct (ctl_get g id) as [c |]; [| reflexivity]. destruct c; reflexivity.
Qed.

Lemma ctl_get_form_reset (g : Grid) (id : nat) :
  ctl_get (form_reset g) id =
  if existsb (Nat.eqb id) (form_fields g) then option_map (fun c => set_ctl_value c (reset_value (ctl_kind c))) (ctl_get g id) else ctl_get g id.
Proof. apply form_reset_fold. Qed.

(** A successful save resets the form: each of its controls gets back its
    reset value (an empty text input, a select's first option); a rejected
    save leaves every value as it was typed.  No other control changes. *)
Theorem saveEmployee_form_values (g : Grid) (id : nat) :
  ctl_get (_saveEmployee g) id =
  if forallb (field_passes g) (form_fields g) && existsb (Nat.eqb id) (form_fields g)
  then option_map (fun c => set_ctl_value c (reset_value (ctl_kind c))) (ctl_get g id)
  else ctl_get g id.
Proof.
  unfold _saveEmployee. rewrite validateEmployee_eq.
  destruct (forallb (field_passes g) (form_fields g)); cbv beta iota zeta; cbn [andb].
  - unfold _buildEmployeeRow. cbv beta iota zeta.
    rewrite ctl_get_form_reset. reflexivity.
  - reflexivity.
Qed.

(** ** Completing an inline edit *)

Lemma find_in_row_some (id pos : nat) (row : list Td) p t :
  find_in_row id pos row = Some (p, t) -> In t row /\ td_id t = id.
Proof.
  revert pos. induction row as [| x row IH]; intros pos; cbn [find_in_row]; [discriminate |].
  destruct (Nat.eqb (td_id x) id) eqn:E.
  - intros H. injection H as _ <-. split; [left; reflexivity | apply Nat.eqb_eq, E].
  - intros H. destruct (IH (S pos) H) as [Hin Hid]. split; [right; exact Hin | exact Hid].
Qed.

Lemma find_in_row_none (id pos : nat) (row : list Td) :
  find_in_row id pos row = None -> forall t, In t row -> td_id t <> id.
Proof.
  revert pos. induction row as [| x row IH]; intros pos; cbn [find_in_row]; [intros _ t [] |].
  destruct (Nat.eqb (td_id x) id) eqn:E; [discriminate |].
  intros H t [<- | Hin]; [apply Nat.eqb_neq, E | exact (IH (S pos) H t Hin)].
Qed.

Lemma find_td_from_some (id ri : nat) (rs : list (list Td)) r p t :
  find_td_from id ri rs = Some (r, p, t) -> In t (concat rs) /\ td_id t = id.
Proof.
  revert ri. induction rs as [| row rs IH]; intros ri; cbn [find_td_from]; [discriminate |].
  destruct (find_in_row id 0 row) as [[p' t'] |] eqn:E.
  - intros H. injection H as _ _ <-. destruct (find_in_row_some _ _ _ _ _ E) as [Hin Hid].
    split; [apply in_or_app; left; exact Hin | exact Hid].
  - intros H. destruct (IH (S ri) H) as [Hin Hid].
    split; [apply in_or_app; right; exact Hin | exact Hid].
Qed.

Lemma find_td_from_none (id ri : nat) (rs : list (list Td)) :
  find_td_from id ri rs = None -> forall t, In t (concat rs) -> td_id t <> id.
Proof.
  revert ri. induction rs as [| row rs IH]; intros ri; cbn [find_td_from concat]; [intros _ t [] |].
  destruct (find_in_row id 0 row) as [[p' t'] |] eqn:E; [discriminate |].
  intros H t Hin. apply in_app_or in Hin as [Hin | Hin].
  - exact (find_in_row_none _ _ _ E t Hin).
  - exact (IH (S ri) H t Hin).
Qed.

(** When every td with id [box] is [boxtd], and there is one, [find_td] returns it. *)
Lemma find_td_unique (g : Grid) (box : nat) (boxtd : Td) :
  In boxtd (concat (rows g)) -> td_id boxtd = box ->
  (forall t, In t (concat (rows g)) -> td_id t = box -> t = boxtd) ->
  exists r p, find_td g box = Some (r, p, boxtd).
Proof.
  intros Hin Hid Huniq. unfold find_td.
  destruct (find_td_from box 0 (rows g)) as [[[r p] t] |] eqn:E.
  - destruct (find_td_from_some _ _ _ _ _ _ E) as [Ht Htid].
    rewrite (Huniq t Ht Htid). exists r, p. reflexivity.
  - exfalso. exact (find_td_from_none _ _ _ E boxtd Hin Hid).
Qed.

Lemma in_concat_map_flat_map (f : Td -> list Td) (R : list (list Td)) (t : Td) :
  In t (concat (map (flat_map f) R)) <-> exists t0, In t0 (concat R) /\ In t (f t0).
Proof.
  rewrite in_concat. split.
  - intros [l [Hl Ht]]. apply in_map_iff in Hl as [r [<- Hr]].
    apply in_flat_map in Ht as [t0 [Ht0 Hin]]. exists t0. split; [| exact Hin].
    apply in_concat. exists r. split; assumption.
  - intros [t0 [Ht0 Hin]]. apply in_concat in Ht0 as [r [Hr Ht0]]. exists (flat_map f r). split.
    + apply in_map, Hr.
    + apply in_flat_map. exists t0. split; assumption.
Qed.

Lemma map_flat_map_compose (f h : Td -> list Td) (R : list (list Td)) :
  map (flat_map f) (map (flat_map h) R) = map (flat_map (fun t => flat_map f (h t))) R.
Proof.
  rewrite map_map. apply map_ext. intros r. induction r as [| t r IH]; [reflexivity |].
  cbn [flat_map]. rewrite flat_map_app, IH. reflexivity.
Qed.

Lemma flat_map_ext_in_td (f h : Td -> list Td) (r : list Td) :
  (forall t, In t r -> f t = h t) -> flat_map f r = flat_map h r.
Proof.
  induction r as [| t r IH]; intros H; [reflexivity |].
  cbn [flat_map]. rewrite (H t (or_introl eq_refl)), IH; [reflexivity |].
  intros t' Ht'. apply H. right. exact Ht'.
Qed.

Lemma map_flat_map_ext_in (f h : Td -> list Td) (R : list (list Td)) :
  (forall t, In t (concat R) -> f t = h t) -> map (flat_map f) R = map (flat_map h) R.
Proof.
  intros H. apply map_ext_in. intros r Hr. apply flat_map_ext_in_td.
  intros t Ht. apply H. apply in_concat. exists r. split; assumption.
Qed.

(** ** Inline edits from the user's side *)

Lemma sortByColumn_rows_perm (c : option Z) (g : Grid) :
  Permutation (rows (_sortByColumn c g)) (rows g).
Proof. apply sort_by_perm. Qed.

Lemma complete_success (h : Grid) (ed : InlineEditor) (o box cid : nat) (ctl : Control) (boxtd : Td) :
  originElement ed = Some o -> targetElement ed = Some (box, cid) -> onComplete ed = true ->
  ctl_get h cid = Some ctl ->
  match ctl_validator ctl with Some vid => success (run_validator h vid) = true | None => True end ->
  td_id boxtd = box -> td_content boxtd = Holds cid -> In boxtd (concat (rows h)) ->
  (forall t, In t (concat (rows h)) -> td_id t = box -> t = boxtd) -> o <> box ->
  focused h = None \/ focused h = Some cid ->
  Permutation (rows (complete ed h)) (rows (set_td_hidden o false (remove_td box (set_td_text o (ctl_value ctl) h)))) /\
  _activeEditor (complete ed h) = None /\ focused (complete ed h) = None /\
  notifications (complete ed h) =
    notifications h ++ [{| n_title := "Success"; n_description := "New row was successfully added."; n_type := SUCCESS |}].
Proof.
  intros Hor Htg Hon Hget Hval Hbid Hbc Hbin Huniq Hob Hfoc.
  destruct (find_td_unique h box boxtd Hbin Hbid Huniq) as [r [p F]].
  assert (FC : first_child h box cid = FCControl cid) by (unfold first_child; rewrite F, Hbc; reflexivity).
  assert (EC : complete ed h = complete_commit ed box cid h).
  { unfold complete. rewrite Htg, FC, Hget. cbn [option_map].
    destruct (ctl_validator ctl) as [vid |]; [cbv zeta; rewrite Hval |]; reflexivity. }
  rewrite EC.
  unfold complete_commit. cbv zeta.
  set (g1 := pushNotification h "Success" "New row was successfully added." SUCCESS).
  replace (first_child g1 box cid) with (first_child h box cid) by reflexivity. rewrite FC.
  replace (ctl_get g1 cid) with (ctl_get h cid) by reflexivity. rewrite Hget, Hor, Hon.
  set (g2 := set_td_text o (ctl_value ctl) g1).
  destruct (find_td g2 box) as [[[r2 p2] t2] |] eqn:F2.
  2: { exfalso. unfold find_td in F2. apply (find_td_from_none _ _ _ F2 boxtd); [| exact Hbid].
       apply in_concat_map_flat_map. exists boxtd. split; [exact Hbin |].
       unfold on_td. rewrite Hbid. rewrite (proj2 (Nat.eqb_neq box o) (fun e => Hob (eq_sym e))).
       left. reflexivity. }
  replace (focused (remove_td box g2)) with (focused h) by reflexivity.
  destruct Hfoc as [Hf | Hf]; [rewrite Hf | rewrite Hf, Nat.eqb_refl].
  all: match goal with |- context [with_activeEditor ?G4 None] => set (g4 := with_activeEditor G4 None) end.
  all: assert (Hn4 : notifications g4 = notifications h ++
    [{| n_title := "Success"; n_description := "New row was successfully added."; n_type := SUCCESS |}])
    by reflexivity.
  all: assert (Hf4 : focused g4 = None) by first [exact Hf | reflexivity].
  all: destruct (0 <=? COLUMN_INDEX g4); split.
  all: try (split; [reflexivity | split; [exact Hf4 | exact Hn4]]).
  all: first [eapply perm_trans; [apply sortByColumn_rows_perm | apply Permutation_refl] | apply Permutation_refl].
Qed.

Lemma open_editor_facts (g : Grid) (o ri pos : nat) (td : Td) (conf : FieldConf) (kind : ControlKind)
    (name : string) :
  _activeEditor g = None -> focused g = None -> find_td g o = Some (ri, pos, td) ->
  nth_error FIELDS pos = Some conf -> generated_control conf = Some (kind, name) ->
  let box := next_id g in
  let cid := S box in
  let ed := {| originElement := Some o; targetElement := Some (box, cid);
               editor_validator := validator conf; onComplete := true |} in
  let gA := step (DblClick (TTd o)) g in
  rows gA = rows (insert_after o {| td_id := box; td_content := Holds cid; td_hidden := false |}
                                 (set_td_hidden o true g)) /\
  focused gA = Some cid /\
  ctl_get gA cid = Some {| ctl_kind := kind; ctl_name := name; ctl_value := sanitize kind (td_text g td);
                           ctl_validator := validator conf; ctl_focusout := true; ctl_owner := Some ed |} /\
  (forall vid, validator conf = Some vid ->
     val_get gA vid = option_map (fun rv => {| v_rules := v_rules rv; _field := Some cid |}) (val_get g vid)) /\
  _activeEditor gA = Some ed /\ notifications gA = notifications g.
Proof.
  intros Hae Hfoc F Hconf Hgen box cid ed gA.
  unfold gA. cbn [step]. unfold blur_any. rewrite Hfoc, F.
  unfold on_dblclick. rewrite Hae. unfold new_InlineEditor, cellIndex. rewrite F, Hconf, Hgen.
  fold box cid ed.
  set (ctl0 := {| ctl_kind := kind; ctl_name := name; ctl_value := sanitize kind (td_text g td);
                  ctl_validator := None; ctl_focusout := true; ctl_owner := Some ed |}).
  set (g2 := insert_after o {| td_id := box; td_content := Holds cid; td_hidden := false |}
               (set_td_hidden o true (with_next_id (ctl_put g cid ctl0) (S cid)))).
  replace (focus cid g2) with (with_focused g2 (Some cid))
    by (unfold focus; change (focused g2) with (focused g); rewrite Hfoc; reflexivity).
  set (g3 := with_focused g2 (Some cid)).
  assert (Hc3 : ctl_get g3 cid = Some ctl0)
    by (change (ctl_get g3 cid) with (assoc cid (assoc_set cid ctl0 (heap g))); apply assoc_assoc_set_same).
  clearbody ed.
  destruct (validator conf) as [vid |] eqn:Hvc.
  - assert (Hb : exists g3', bindField g3 vid cid = g3' /\ ctl_get g3' cid = Some ctl0 /\ rows g3' = rows g3 /\
                 focused g3' = focused g3 /\ notifications g3' = notifications g3 /\
                 val_get g3' vid = option_map (fun rv => {| v_rules := v_rules rv; _field := Some cid |}) (val_get g vid)).
    { unfold bindField. change (val_get g3 vid) with (val_get g vid).
      destruct (val_get g vid) as [rv |] eqn:Hrv.
      - eexists. split; [reflexivity |]. split; [exact Hc3 |]. split; [reflexivity |]. split; [reflexivity |].
        split; [reflexivity |]. apply assoc_assoc_set_same.
      - eexists. split; [reflexivity |]. split; [exact Hc3 |]. split; [reflexivity |]. split; [reflexivity |].
        split; [reflexivity |]. exact Hrv. }
    destruct Hb as [g3' [-> [Hc [Hr [Hf [Hn Hv]]]]]].
    unfold ctl_update. rewrite Hc.
    split; [exact Hr |]. split; [exact Hf |]. split.
    + change (assoc cid (assoc_set cid (set_ctl_validator ctl0 (Some vid)) (heap g3')) =
              Some {| ctl_kind := kind; ctl_name := name; ctl_value := sanitize kind (td_text g td);
                      ctl_validator := Some vid; ctl_focusout := true; ctl_owner := Some ed |}).
      rewrite assoc_assoc_set_same. reflexivity.
    + split; [| split; [reflexivity | exact Hn]].
      intros vid' E. injection E as <-. exact Hv.
  - split; [reflexivity |]. split; [reflexivity |]. split; [exact Hc3 |].
    split; [intros vid' E; discriminate E |]. split; reflexivity.
Qed.

Lemma rows_map_tds (f : Td -> list Td) (g : Grid) : rows (map_tds f g) = map (flat_map f) (rows g).
Proof. destruct g; reflexivity. Qed.

Lemma edit_rows_collapse (g : Grid) (o : nat) (s : string) (boxtd : Td) :
  (forall t, In t (concat (rows g)) -> td_id t <> td_id boxtd) -> o <> td_id boxtd ->
  rows (set_td_hidden o false (remove_td (td_id boxtd)
          (set_td_text o s (insert_after o boxtd (set_td_hidden o true g))))) =
  rows (set_td_hidden o false (set_td_text o s g)).
Proof.
  intros Hfresh Hob.
  unfold set_td_hidden, remove_td, set_td_text, insert_after. rewrite !rows_map_tds.
  rewrite !map_flat_map_compose. apply map_flat_map_ext_in. intros t Ht.
  pose proof (Hfresh t Ht) as Htb.
  assert (N1 : Nat.eqb o (td_id boxtd) = false) by (apply Nat.eqb_neq; exact Hob).
  assert (N2 : Nat.eqb (td_id boxtd) o = false) by (apply Nat.eqb_neq; intros e; apply Hob; symmetry; exact e).
  assert (N3 : Nat.eqb (td_id t) (td_id boxtd) = false) by (apply Nat.eqb_neq; exact Htb).
  unfold on_td.
  destruct (Nat.eqb_spec (td_id t) o) as [E | E].
  - repeat progress (simpl; rewrite ?E, ?Nat.eqb_refl, ?N1, ?N2, ?N3). reflexivity.
  - assert (N4 : Nat.eqb (td_id t) o = false) by (apply Nat.eqb_neq; exact E).
    repeat progress (simpl; rewrite ?N4, ?N3). reflexivity.
Qed.

Lemma insert_after_fresh (g : Grid) (o : nat) (td boxtd : Td) :
  In td (concat (rows g)) -> td_id td = o ->
  (forall t, In t (concat (rows g)) -> td_id t <> td_id boxtd) ->
  In boxtd (concat (rows (insert_after o boxtd (set_td_hidden o true g)))) /\
  (forall t, In t (concat (rows (insert_after o boxtd (set_td_hidden o true g)))) ->
             td_id t = td_id boxtd -> t = boxtd).
Proof.
  intros Htd Hid Hfresh.
  unfold insert_after, set_td_hidden. rewrite !rows_map_tds, map_flat_map_compose.
  split.
  - apply in_concat_map_flat_map. exists td. split; [exact Htd |].
    unfold on_td. rewrite Hid, Nat.eqb_refl. simpl. rewrite Nat.eqb_refl. simpl. right. left. reflexivity.
  - intros t Ht Hb. apply in_concat_map_flat_map in Ht. destruct Ht as [t0 [H0 Hin]].
    pose proof (Hfresh t0 H0) as N0.
    unfold on_td in Hin. destruct (Nat.eqb_spec (td_id t0) o) as [E | E].
    + simpl in Hin. rewrite E, Nat.eqb_refl in Hin. simpl in Hin.
      destruct Hin as [Ht1 | [Ht1 | []]].
      * exfalso. subst t. simpl in Hb. apply N0. rewrite E. exact Hb.
      * symmetry. exact Ht1.
    + simpl in Hin. rewrite (proj2 (Nat.eqb_neq _ _) E) in Hin. simpl in Hin.
      destruct Hin as [Ht1 | []]. subst t. exfalso. exact (N0 Hb).
Qed.

(** An inline edit that is accepted: double-clicking a body cell, typing
    [v] and leaving the control (a click elsewhere or Enter) writes the
    control's reading of [v] into the cell and shows it again, removes the
    editor, its control and the focus, and adds one "Success" notification;
    the rows are the edited ones, up to the re-sort of the active column.
    This needs a fresh id for the editor's container and, when the field has
    a validator, that it accepts the value. *)
Theorem inline_edit_roundtrip (g : Grid) (o ri pos : nat) (td : Td) (conf : FieldConf) (kind : ControlKind)
    (name : string) (v : string) (last : Event) :
  _activeEditor g = None -> focused g = None ->
  (forall t, In t (concat (rows g)) -> (td_id t < next_id g)%nat) ->
  find_td g o = Some (ri, pos, td) -> nth_error FIELDS pos = Some conf ->
  generated_control conf = Some (kind, name) ->
  match validator conf with
  | Some vid => exists rv, val_get g vid = Some rv /\
                           success (validate (Some (Some (sanitize kind v))) (v_rules rv)) = true
  | None => True
  end ->
  last = Blur \/ last = KeyEnter ->
  let g' := run [DblClick (TTd o); Input v; last] g in
  Permutation (rows g') (rows (set_td_hidden o false (set_td_text o (sanitize kind v) g))) /\
  _activeEditor g' = None /\ focused g' = None /\
  notifications g' =
    notifications g ++ [{| n_title := "Success"; n_description := "New row was successfully added.";
                           n_type := SUCCESS |}].
Proof.
  intros Hae Hfoc Hfresh F Hconf Hgen Hok Hlast g'.
  destruct (open_editor_facts g o ri pos td conf kind name Hae Hfoc F Hconf Hgen)
    as [RA [FA [CA [VA [EA NA]]]]].
  set (box := next_id g) in *. set (cid := S box) in *.
  set (ed := {| originElement := Some o; targetElement := Some (box, cid);
                editor_validator := validator conf; onComplete := true |}) in *.
  set (gA := step (DblClick (TTd o)) g) in *.
  set (ctlA := {| ctl_kind := kind; ctl_name := name; ctl_value := sanitize kind (td_text g td);
                  ctl_validator := validator conf; ctl_focusout := true; ctl_owner := Some ed |}) in *.
  set (ctlI := set_ctl_value ctlA (sanitize kind v)).
  set (gI := ctl_put gA cid ctlI).
  assert (EI : step (Input v) gA = gI)
    by (cbn [step]; rewrite FA; unfold ctl_update; rewrite CA; reflexivity).
  set (boxtd := {| td_id := box; td_content := Holds cid; td_hidden := false |}) in *.
  destruct (find_td_from_some _ _ _ _ _ _ F) as [Htd Hid].
  assert (Hfr : forall t, In t (concat (rows g)) -> td_id t <> td_id boxtd)
    by (intros t Ht; simpl; pose proof (Hfresh t Ht); unfold box; lia).
  assert (Hob : o <> box) by (pose proof (Hfresh td Htd); rewrite Hid in *; unfold box; lia).
  destruct (insert_after_fresh g o td boxtd Htd Hid Hfr) as [Hin Huniq].
  (* the state handed to [complete], in either ending *)
  assert (Hcommon : forall h ctl, rows h = rows gA -> notifications h = notifications g ->
            ctl_get h cid = Some ctl -> ctl_value ctl = sanitize kind v -> ctl_validator ctl = validator conf ->
            (forall vid, val_get h vid = val_get gA vid) ->
            focused h = None \/ focused h = Some cid ->
            Permutation (rows (complete ed h)) (rows (set_td_hidden o false (set_td_text o (sanitize kind v) g))) /\
            _activeEditor (complete ed h) = None /\ focused (complete ed h) = None /\
            notifications (complete ed h) =
              notifications g ++ [{| n_title := "Success"; n_description := "New row was successfully added.";
                                     n_type := SUCCESS |}]).
  { intros h ctl Rh Nh Ch Cv Cw Vh Fh.
    assert (Hs : match ctl_validator ctl with Some vid => success (run_validator h vid) = true | None => True end).
    { rewrite Cw. revert Hok VA. destruct (validator conf) as [vid |]; [| intros; exact I].
      intros [rv [Hrv Hs]] VA. unfold run_validator. rewrite (Vh vid), (VA vid eq_refl), Hrv.
      cbn [option_map _field v_rules]. rewrite Ch. cbn [option_map]. rewrite Cv. exact Hs. }
    assert (Hin' : In boxtd (concat (rows h))) by (rewrite Rh, RA; exact Hin).
    assert (Hu' : forall t, In t (concat (rows h)) -> td_id t = box -> t = boxtd)
      by (intros t Ht; rewrite Rh, RA in Ht; exact (Huniq t Ht)).
    destruct (complete_success h ed o box cid ctl boxtd eq_refl eq_refl eq_refl Ch Hs eq_refl eq_refl
                Hin' Hu' Hob Fh) as [P [E1 [E2 E3]]].
    split; [| split; [exact E1 | split; [exact E2 | rewrite E3, Nh; reflexivity]]].
    eapply Permutation_trans; [exact P |].
    rewrite Cv.
    replace (rows (set_td_hidden o false (remove_td box (set_td_text o (sanitize kind v) h))))
      with (rows (set_td_hidden o false (remove_td (td_id boxtd)
              (set_td_text o (sanitize kind v) (insert_after o boxtd (set_td_hidden o true g))))))
      by (unfold set_td_hidden at 1 3, remove_td, set_td_text; rewrite !rows_map_tds, Rh, RA; reflexivity).
    rewrite edit_rows_collapse by assumption. apply Permutation_refl. }
  unfold g', run. cbn [fold_left]. fold gA. rewrite EI.
  assert (CI : ctl_get gI cid = Some ctlI) by apply assoc_assoc_set_same.
  destruct Hlast as [-> | ->]; cbn [step].
  - assert (EB : blur_any gI = complete ed (with_focused gI None)).
    { unfold blur_any, blur. change (focused gI) with (focused gA). rewrite FA, Nat.eqb_refl.
      unfold fire_focusout. change (ctl_get (with_focused gI None) cid) with (ctl_get gI cid).
      rewrite CI. reflexivity. }
    rewrite EB. exact (Hcommon (with_focused gI None) ctlI eq_refl NA CI eq_refl eq_refl (fun _ => eq_refl) (or_introl eq_refl)).
  - change (focused gI) with (focused gA). rewrite FA, CI. cbn [ctlI set_ctl_value ctl_owner ctlA].
    unfold editor_enter.
    replace (ctl_update gI cid drop_focusout) with (ctl_put gI cid (drop_focusout ctlI))
      by (unfold ctl_update; rewrite CI; reflexivity).
    destruct (Hcommon (ctl_put gI cid (drop_focusout ctlI)) (drop_focusout ctlI) eq_refl NA
                (assoc_assoc_set_same _ _ _) eq_refl eq_refl (fun _ => eq_refl) (or_intror FA))
      as [P [E1 [E2 E3]]].
    set (gC := complete ed (ctl_put gI cid (drop_focusout ctlI))) in *.
    replace (blur cid gC) with gC by (unfold blur; rewrite E2; reflexivity).
    split; [exact P | split; [exact E1 | split; [exact E2 | exact E3]]].
Qed.

Lemma complete_rejected (h : Grid) (ed : InlineEditor) (box cid vid : nat) (ctl : Control) (boxtd : Td) :
  targetElement ed = Some (box, cid) -> ctl_get h cid = Some ctl -> ctl_validator ctl = Some vid ->
  success (run_validator h vid) = false ->
  td_id boxtd = box -> td_content boxtd = Holds cid -> In boxtd (concat (rows h)) ->
  (forall t, In t (concat (rows h)) -> td_id t = box -> t = boxtd) ->
  complete ed h = pushNotification h "Validation failed" (message (run_validator h vid)) ERROR.
Proof.
  intros Htg Hget Hval Hfail Hbid Hbc Hbin Huniq.
  destruct (find_td_unique h box boxtd Hbin Hbid Huniq) as [r [p F]].
  unfold complete. rewrite Htg.
  replace (first_child h box cid) with (FCControl cid) by (unfold first_child; rewrite F, Hbc; reflexivity).
  rewrite Hget. cbn [option_map]. rewrite Hval. cbv zeta. rewrite Hfail. reflexivity.
Qed.

(** An inline edit that is rejected: after typing [v] and leaving the
    control, the editor stays open (its control in a new cell after the
    hidden origin cell, still holding its reading of [v]), the focus is gone, and one
    "Validation failed" notification carries the validator's message.
    Leaving with Enter also detaches the control's focusout listener, so a
    later click elsewhere no longer re-validates; leaving by a click keeps
    it attached. *)
Theorem inline_edit_rejected (g : Grid) (o ri pos : nat) (td : Td) (conf : FieldConf) (kind : ControlKind)
    (name : string) (vid : nat) (rv : ValidatorObj) (v : string) (last : Event) :
  _activeEditor g = None -> focused g = None ->
  (forall t, In t (concat (rows g)) -> (td_id t < next_id g)%nat) ->
  find_td g o = Some (ri, pos, td) -> nth_error FIELDS pos = Some conf ->
  generated_control conf = Some (kind, name) -> validator conf = Some vid -> val_get g vid = Some rv ->
  success (validate (Some (Some (sanitize kind v))) (v_rules rv)) = false ->
  last = Blur \/ last = KeyEnter ->
  let box := next_id g in
  let cid := S box in
  let ed := {| originElement := Some o; targetElement := Some (box, cid);
               editor_validator := Some vid; onComplete := true |} in
  let g' := run [DblClick (TTd o); Input v; last] g in
  rows g' = rows (insert_after o {| td_id := box; td_content := Holds cid; td_hidden := false |}
                                 (set_td_hidden o true g)) /\
  _activeEditor g' = Some ed /\ focused g' = None /\
  notifications g' =
    notifications g ++ [{| n_title := "Validation failed";
                           n_description := message (validate (Some (Some (sanitize kind v))) (v_rules rv));
                           n_type := ERROR |}] /\
  option_map ctl_value (ctl_get g' cid) = Some (sanitize kind v) /\
  option_map ctl_focusout (ctl_get g' cid) = Some (match last with KeyEnter => false | _ => true end).
Proof.
  intros Hae Hfoc Hfresh F Hconf Hgen Hvc Hrv Hko Hlast box cid ed g'.
  destruct (open_editor_facts g o ri pos td conf kind name Hae Hfoc F Hconf Hgen)
    as [RA [FA [CA [VA0 [EA NA]]]]].
  pose proof (VA0 vid Hvc) as VA. rewrite Hrv in VA. cbn [option_map] in VA. clear VA0.
  rewrite Hvc in CA, EA.
  fold box cid ed in RA, FA, CA, VA, EA, NA.
  set (gA := step (DblClick (TTd o)) g) in *.
  set (ctlA := {| ctl_kind := kind; ctl_name := name; ctl_value := sanitize kind (td_text g td);
                  ctl_validator := Some vid; ctl_focusout := true; ctl_owner := Some ed |}) in *.
  set (ctlI := set_ctl_value ctlA (sanitize kind v)).
  set (gI := ctl_put gA cid ctlI).
  assert (EI : step (Input v) gA = gI)
    by (cbn [step]; rewrite FA; unfold ctl_update; rewrite CA; reflexivity).
  set (boxtd := {| td_id := box; td_content := Holds cid; td_hidden := false |}) in *.
  destruct (find_td_from_some _ _ _ _ _ _ F) as [Htd Hid].
  assert (Hfr : forall t, In t (concat (rows g)) -> td_id t <> td_id boxtd)
    by (intros t Ht; simpl; pose proof (Hfresh t Ht); unfold box; lia).
  destruct (insert_after_fresh g o td boxtd Htd Hid Hfr) as [Hin Huniq].
  assert (Hcommon : forall h ctl, rows h = rows gA ->
            ctl_get h cid = Some ctl -> ctl_value ctl = sanitize kind v -> ctl_validator ctl = Some vid ->
            val_get h vid = Some {| v_rules := v_rules rv; _field := Some cid |} ->
            complete ed h = pushNotification h "Validation failed"
              (message (validate (Some (Some (sanitize kind v))) (v_rules rv))) ERROR).
  { intros h ctl Rh Ch Vc Vv Vh.
    assert (Hr : run_validator h vid = validate (Some (Some (sanitize kind v))) (v_rules rv))
      by (unfold run_validator; rewrite Vh; cbn [_field v_rules]; rewrite Ch; cbn [option_map]; rewrite Vc;
          reflexivity).
    rewrite <- Hr. apply (complete_rejected h ed box cid vid ctl boxtd eq_refl Ch Vv); [rewrite Hr; exact Hko | reflexivity | reflexivity | |].
    - rewrite Rh, RA. exact Hin.
    - intros t Ht. rewrite Rh, RA in Ht. exact (Huniq t Ht). }
  unfold g', run. cbn [fold_left]. fold gA. rewrite EI.
  assert (CI : ctl_get gI cid = Some ctlI) by apply assoc_assoc_set_same.
  assert (VI : val_get gI vid = Some {| v_rules := v_rules rv; _field := Some cid |}) by exact VA.
  destruct Hlast as [-> | ->]; cbn [step].
  - assert (EB : blur_any gI = complete ed (with_focused gI None)).
    { unfold blur_any, blur. change (focused gI) with (focused gA). rewrite FA, Nat.eqb_refl.
      unfold fire_focusout. change (ctl_get (with_focused gI None) cid) with (ctl_get gI cid).
      rewrite CI. reflexivity. }
    rewrite EB, (Hcommon (with_focused gI None) ctlI eq_refl CI eq_refl eq_refl VI).
    split; [exact RA |]. split; [exact EA |]. split; [reflexivity |]. split.
    + rewrite <- NA. reflexivity.
    + match goal with |- context [ctl_get ?X cid] => change (ctl_get X cid) with (ctl_get gI cid) end.
      rewrite CI. split; reflexivity.
  - change (focused gI) with (focused gA). rewrite FA, CI. cbn [ctlI set_ctl_value ctl_owner ctlA].
    unfold editor_enter.
    replace (ctl_update gI cid drop_focusout) with (ctl_put gI cid (drop_focusout ctlI))
      by (unfold ctl_update; rewrite CI; reflexivity).
    set (hE := ctl_put gI cid (drop_focusout ctlI)).
    assert (CE : ctl_get hE cid = Some (drop_focusout ctlI)) by apply assoc_assoc_set_same.
    rewrite (Hcommon hE (drop_focusout ctlI) eq_refl CE eq_refl eq_refl VI).
    unfold blur. change (focused (pushNotification hE _ _ _)) with (focused gA). rewrite FA, Nat.eqb_refl.
    unfold fire_focusout.
    change (ctl_get (with_focused (pushNotification hE "Validation failed"
              (message (validate (Some (Some (sanitize kind v))) (v_rules rv))) ERROR) None) cid)
      with (ctl_get hE cid).
    rewrite CE. cbn [drop_focusout ctl_focusout].
    split; [exact RA |]. split; [exact EA |]. split; [reflexivity |]. split.
    + rewrite <- NA. reflexivity.
    + change (ctl_get (with_focused (pushNotification hE "Validation failed"
              (message (validate (Some (Some (sanitize kind v))) (v_rules rv))) ERROR) None) cid)
        with (ctl_get hE cid).
      rewrite CE. split; reflexivity.
Qed.

Lemma inline_edit_roundtrip_witness :
  (forall t, In t (concat (rows sample_grid)) -> (td_id t < next_id sample_grid)%nat) /\
  let g' := run [DblClick (TTd 0); Input "Airi S."; KeyEnter] sample_grid in
  Permutation (rows g') (rows (set_td_hidden 0 false (set_td_text 0 (sanitize (InputControl "text") "Airi S.") sample_grid))) /\
  _activeEditor g' = None /\ focused g' = None /\
  notifications g' =
    notifications sample_grid ++
      [{| n_title := "Success"; n_description := "New row was successfully added."; n_type := SUCCESS |}].
Proof.
  assert (Hfresh : forall t, In t (concat (rows sample_grid)) -> (td_id t < next_id sample_grid)%nat).
  { intros t Ht. apply Nat.ltb_lt. revert t Ht.
    apply (proj1 (forallb_forall (fun t => Nat.ltb (td_id t) (next_id sample_grid)) _)).
    vm_compute. reflexivity. }
  split; [exact Hfresh |].
  apply (inline_edit_roundtrip sample_grid 0 0 0 {| td_id := 0; td_content := Text "Airi Satou"; td_hidden := false |}
           {| GeneratorClass := InputFieldGenerator; args := [AStr "name"]; required := true;
              type := "text"; validator := Some name_validator; formatter := None |}
           (InputControl "text") "undefined").
  - reflexivity.
  - reflexivity.
  - exact Hfresh.
  - reflexivity.
  - reflexivity.
  - reflexivity.
  - exists {| v_rules := MinStrLenValidator "name" 4; _field := Some 15%nat |}.
    split; [reflexivity | vm_compute; reflexivity].
  - right. reflexivity.
Defined.

Lemma inline_edit_rejected_witness :
  val_get sample_grid name_validator = Some {| v_rules := MinStrLenValidator "name" 4; _field := Some 15%nat |} /\
  let box := next_id sample_grid in
  let cid := S box in
  let ed := {| originElement := Some 0%nat; targetElement := Some (box, cid);
               editor_validator := Some name_validator; onComplete := true |} in
  let g' := run [DblClick (TTd 0); Input "Al"; KeyEnter] sample_grid in
  rows g' = rows (insert_after 0 {| td_id := box; td_content := Holds cid; td_hidden := false |}
                                 (set_td_hidden 0 true sample_grid)) /\
  _activeEditor g' = Some ed /\ focused g' = None /\
  notifications g' =
    notifications sample_grid ++
      [{| n_title := "Validation failed";
          n_description := message (validate (Some (Some (sanitize (InputControl "text") "Al")))
                                              (MinStrLenValidator "name" 4));
          n_type := ERROR |}] /\
  option_map ctl_value (ctl_get g' cid) = Some (sanitize (InputControl "text") "Al") /\
  option_map ctl_focusout (ctl_get g' cid) = Some false.
Proof.
  assert (Hfresh : forall t, In t (concat (rows sample_grid)) -> (td_id t < next_id sample_grid)%nat).
  { intros t Ht. apply Nat.ltb_lt. revert t Ht.
    apply (proj1 (forallb_forall (fun t => Nat.ltb (td_id t) (next_id sample_grid)) _)).
    vm_compute. reflexivity. }
  split; [reflexivity |].
  apply (inline_edit_rejected sample_grid 0 0 0 {| td_id := 0; td_content := Text "Airi Satou"; td_hidden := false |}
           {| GeneratorClass := InputFieldGenerator; args := [AStr "name"]; required := true;
              type := "text"; validator := Some name_validator; formatter := None |} (InputControl "text") "undefined" name_validator
           {| v_rules := MinStrLenValidator "name" 4; _field := Some 15%nat |} "Al" KeyEnter).
  - reflexivity.
  - reflexivity.
  - exact Hfresh.
  - reflexivity.
  - reflexivity.
  - reflexivity.
  - reflexivity.
  - reflexivity.
  - vm_compute. reflexivity.
  - right. reflexivity.
Defined.

(** ** Notification placement *)

Lemma ForallOrdPairs_app_one {A} (R : A -> A -> Prop) (l : list A) (x : A) :
  ForallOrdPairs R l -> Forall (fun a => R a x) l -> ForallOrdPairs R (l ++ [x]).
Proof.
  induction 1 as [| a l Ha Hl IH]; intros Hx; cbn [app].
  - constructor; constructor.
  - inversion Hx as [| ? ? Hax Hx']; subst. constructor.
    + apply Forall_app. split; [exact Ha | constructor; [exact Hax | constructor]].
    + exact (IH Hx').
Qed.

Lemma Forall_remove_at {A} (P : A -> Prop) (i : nat) (l : list A) :
  Forall P l -> Forall P (remove_at i l).
Proof.
  revert i. induction l as [| x l IH]; intros i H; [destruct i; constructor |].
  inversion H; subst. destruct i; cbn [remove_at]; [assumption | constructor; auto].
Qed.

Lemma ForallOrdPairs_remove_at {A} (R : A -> A -> Prop) (i : nat) (l : list A) :
  ForallOrdPairs R l -> ForallOrdPairs R (remove_at i l).
Proof.
  revert i. induction l as [| x l IH]; intros i H; [destruct i; constructor |].
  inversion H as [| ? ? Hx Hl]; subst. destruct i; cbn [remove_at]; [assumption |].
  constructor; [apply Forall_remove_at; exact Hx | apply IH; exact Hl].
Qed.

Lemma ForallOrdPairs_nth {A} (R : A -> A -> Prop) (l : list A) :
  ForallOrdPairs R l -> forall i j a b, (i < j)%nat -> nth_error l i = Some a -> nth_error l j = Some b -> R a b.
Proof.
  induction 1 as [| x l Hx Hl IH]; intros i j a b Hij Ha Hb; [destruct i; discriminate |].
  destruct j as [| j]; [lia |]. cbn [nth_error] in Hb.
  destruct i as [| i]; cbn [nth_error] in Ha.
  - injection Ha as <-. rewrite Forall_forall in Hx. apply Hx. eapply nth_error_In. exact Hb.
  - apply (IH i j); [lia | exact Ha | exact Hb].
Qed.

Lemma last_bottom_max (l : list NotificationEl) (z : NotificationEl) :
  ForallOrdPairs spaced_below l -> Forall (fun a => 0 <= el_height a) l ->
  lastNotification l = Some z -> forall a, In a l -> el_top a + el_height a <= el_top z + el_height z.
Proof.
  unfold lastNotification. induction 1 as [| x l Hx Hl IH]; intros Hh Hz a Ha; [destruct Ha |].
  inversion Hh as [| ? ? Hxh Hh']; subst.
  destruct l as [| y l'].
  - cbn in Hz. injection Hz as <-. destruct Ha as [<- | []]. lia.
  - replace (length (x :: y :: l') - 1)%nat with (S (length (y :: l') - 1)) in Hz
      by (cbn [length]; lia).
    cbn [nth_error] in Hz.
    assert (Hzin : In z (y :: l')) by (eapply nth_error_In; exact Hz).
    destruct Ha as [<- | Ha].
    + rewrite Forall_forall in Hx, Hh'. pose proof (Hx z Hzin) as B. pose proof (Hh' z Hzin).
      unfold spaced_below, NOTIFICATION_POS_Y_DELTA in B. lia.
    + exact (IH Hh' Hz a Ha).
Qed.

Lemma notification_step_spaced (c : list NotificationEl) (e : NotificationEvent) :
  ForallOrdPairs spaced_below c -> Forall (fun a => 0 <= el_height a) c ->
  (match e with NPush _ _ _ h => 0 <= h | NExpire _ => True end) ->
  ForallOrdPairs spaced_below (notification_step c e) /\ Forall (fun a => 0 <= el_height a) (notification_step c e).
Proof.
  intros Hs Hh He. destruct e as [title description type h | i]; cbn [notification_step].
  - unfold createNotification. cbv zeta. cbn [fst]. split.
    + apply ForallOrdPairs_app_one; [exact Hs |].
      apply Forall_forall. intros a Ha. unfold spaced_below. cbn [el_top].
      destruct (lastNotification c) as [z |] eqn:Hz; [| unfold lastNotification in Hz;
        apply nth_error_None in Hz; destruct c; [destruct Ha | cbn [length] in Hz; lia]].
      pose proof (last_bottom_max c z Hs Hh Hz a Ha). lia.
    + apply Forall_app. split; [exact Hh | constructor; [exact He | constructor]].
  - split; [apply ForallOrdPairs_remove_at; exact Hs | apply Forall_remove_at; exact Hh].
Qed.

(** Notifications never overlap: whatever pushes and timeouts happen, of
    any two notifications on the page the later one starts at least
    [NOTIFICATION_POS_Y_DELTA] (10px) below the bottom of the earlier one,
    provided the rendered heights are not negative. *)
Theorem notifications_never_overlap (es : list NotificationEvent) :
  Forall (fun e => match e with NPush _ _ _ h => 0 <= h | NExpire _ => True end) es ->
  let c := notification_run es [] in
  forall i j a b, (i < j)%nat -> nth_error c i = Some a -> nth_error c j = Some b ->
    el_top a + el_height a + NOTIFICATION_POS_Y_DELTA <= el_top b.
Proof.
  intros Hes c.
  assert (H : forall c0, ForallOrdPairs spaced_below c0 -> Forall (fun a => 0 <= el_height a) c0 ->
            ForallOrdPairs spaced_below (notification_run es c0)).
  { induction Hes as [| e es He Hes IH]; intros c0 Hs Hh; [exact Hs |].
    unfold notification_run. cbn [fold_left].
    destruct (notification_step_spaced c0 e Hs Hh He) as [Hs' Hh'].
    exact (IH _ Hs' Hh'). }
  apply (ForallOrdPairs_nth spaced_below c (H [] (FOP_nil _) (Forall_nil _))).
Qed.

Lemma notifications_never_overlap_witness :
  Forall (fun e => match e with NPush _ _ _ h => 0 <= h | NExpire _ => True end)
    [NPush "Success" "New row was successfully added." NOTIFICATION_TYPE_SUCCESS 60;
     NPush "Validation failed" "Minimum age is 18" NOTIFICATION_TYPE_ERROR 80; NExpire 0;
     NPush "Success" "New row was successfully added." NOTIFICATION_TYPE_SUCCESS 60] /\
  let c := notification_run
    [NPush "Success" "New row was successfully added." NOTIFICATION_TYPE_SUCCESS 60;
     NPush "Validation failed" "Minimum age is 18" NOTIFICATION_TYPE_ERROR 80; NExpire 0;
     NPush "Success" "New row was successfully added." NOTIFICATION_TYPE_SUCCESS 60] [] in
  forall i j a b, (i < j)%nat -> nth_error c i = Some a -> nth_error c j = Some b ->
    el_top a + el_height a + NOTIFICATION_POS_Y_DELTA <= el_top b.
Proof.
  split; [repeat constructor; discriminate |].
  apply notifications_never_overlap. repeat constructor; discriminate.
Defined.
